(** * Scheduler: the route guards and the router of [src/App.jsx]

    [ProtectedRoute] and [PublicRoute] are React function components that
    keep two hook cells ([isAuthenticated], [isLoading]), start a one-shot
    probe [firebase.auth.isAuthenticated()] and subscribe to
    [firebase.auth.onAuthStateChanged] in a mount-only effect.  [App] is the
    static route table.

    The components are embedded as they are written: the bodies of the
    asynchronous [checkAuth], of the subscription handler and of the effect
    cleanup are programs of a small state-and-exception monad over the
    world they act on (hook cells, console, identity provider); the render
    bodies are pure functions of the two hook cells.

    The second part covers the utility module that follows in the same
    file: [createPageUrl], [formatTime], [debounce], [generateId],
    [isValidEmail], [truncate], [getWeekStart], [getWeekDates] and [cn].
    JavaScript strings are sequences of UTF-16 code units; numbers are
    integers where the functions only use integers. *)

From Stdlib Require Import String List Bool.
From Stdlib Require Import Ascii NArith ZArith Lia DecimalString.
Import ListNotations.
Local Open Scope string_scope.
Local Open Scope list_scope.

(** ** JavaScript values *)

(** A rejection reason / thrown value. *)
Definition exn : Type := string.

(** The user object the identity provider hands to the subscription
    handler; the handler receives [null] (here [None]) when signed out. *)
Definition identity : Type := string.

(** Outcome of awaiting [firebase.auth.isAuthenticated()], a
    [Promise<bool>]. *)
Inductive settled : Type :=
| Fulfilled (authenticated : bool)
| Rejected (error : exn).

(** Truthiness of the [isAuthenticated] cell, which holds [null], [true]
    or [false]. *)
Definition truthy (v : option bool) : bool :=
  match v with
  | Some true => true
  | Some false => false
  | None => false
  end.

(** [!!user] for [user] an object or [null]. *)
Definition not_not (user : option identity) : bool :=
  match user with
  | Some _ => true
  | None => false
  end.

(** ** The world a guard instance acts on *)

(** A call of one of the two hook setters. *)
Inductive update : Type :=
| SetIsAuthenticated (v : option bool)
| SetIsLoading (b : bool).

Record world : Type := mkWorld {
  (** hook cell of [React.useState(null)] *)
  isAuthenticated : option bool;
  (** hook cell of [React.useState(true)] *)
  isLoading : bool;
  (** the instance is mounted *)
  mounted : bool;
  (** the promise of [firebase.auth.isAuthenticated()] is pending *)
  probe_in_flight : bool;
  (** the handler is registered with the identity provider *)
  subscribed : bool;
  (** how often the function returned by [onAuthStateChanged] was called *)
  unsubscribe_calls : nat;
  (** arguments of the [console.error] calls, oldest first *)
  console_errors : list (string * exn);
  (** setter calls made while the instance was unmounted, oldest first;
      the runtime leaves the hook cells alone for these *)
  stale_updates : list update;
  (** exceptions that escaped a callback *)
  unhandled : list exn
}.

Definition with_isAuthenticated (v : option bool) (w : world) : world :=
  mkWorld v (isLoading w) (mounted w) (probe_in_flight w) (subscribed w)
          (unsubscribe_calls w) (console_errors w) (stale_updates w)
          (unhandled w).

Definition with_isLoading (b : bool) (w : world) : world :=
  mkWorld (isAuthenticated w) b (mounted w) (probe_in_flight w) (subscribed w)
          (unsubscribe_calls w) (console_errors w) (stale_updates w)
          (unhandled w).

Definition with_mounted (b : bool) (w : world) : world :=
  mkWorld (isAuthenticated w) (isLoading w) b (probe_in_flight w)
          (subscribed w) (unsubscribe_calls w) (console_errors w)
          (stale_updates w) (unhandled w).

Definition with_probe_in_flight (b : bool) (w : world) : world :=
  mkWorld (isAuthenticated w) (isLoading w) (mounted w) b (subscribed w)
          (unsubscribe_calls w) (console_errors w) (stale_updates w)
          (unhandled w).

Definition with_subscription (b : bool) (n : nat) (w : world) : world :=
  mkWorld (isAuthenticated w) (isLoading w) (mounted w) (probe_in_flight w)
          b n (console_errors w) (stale_updates w) (unhandled w).

Definition with_console_errors (l : list (string * exn)) (w : world) : world :=
  mkWorld (isAuthenticated w) (isLoading w) (mounted w) (probe_in_flight w)
          (subscribed w) (unsubscribe_calls w) l (stale_updates w)
          (unhandled w).

Definition with_stale_updates (l : list update) (w : world) : world :=
  mkWorld (isAuthenticated w) (isLoading w) (mounted w) (probe_in_flight w)
          (subscribed w) (unsubscribe_calls w) (console_errors w) l
          (unhandled w).

Definition with_unhandled (l : list exn) (w : world) : world :=
  mkWorld (isAuthenticated w) (isLoading w) (mounted w) (probe_in_flight w)
          (subscribed w) (unsubscribe_calls w) (console_errors w)
          (stale_updates w) l.

(** ** Callback bodies: state and exceptions *)

Definition M (A : Type) : Type := world -> world * (exn + A).

Definition ret {A : Type} (a : A) : M A := fun w => (w, inr a).

Definition throw {A : Type} (e : exn) : M A := fun w => (w, inl e).

Definition bind {A B : Type} (m : M A) (f : A -> M B) : M B :=
  fun w =>
    match m w with
    | (w', inl e) => (w', inl e)
    | (w', inr a) => f a w'
    end.

Notation "x <- m ;; k" := (bind m (fun x => k))
  (at level 61, m at next level, right associativity).
Notation "m ;; k" := (bind m (fun _ => k))
  (at level 61, right associativity).

(** [try { body } catch (e) { handler } finally { finalizer }]: the
    finalizer always runs; an exception of the handler or of the finalizer
    escapes. *)
Definition try_catch_finally {A : Type}
    (body : M A) (handler : exn -> M A) (finalizer : M unit) : M A :=
  fun w =>
    let '(w1, r1) :=
      match body w with
      | (w', inl e) => handler e w'
      | (w', inr a) => (w', inr a)
      end in
    match finalizer w1 with
    | (w2, inl e) => (w2, inl e)
    | (w2, inr _) => (w2, r1)
    end.

(** [await p] in the continuation that runs once [p] has settled. *)
Definition await (r : settled) : M bool :=
  match r with
  | Fulfilled authenticated => ret authenticated
  | Rejected error => throw error
  end.

(** A hook setter: updates its cell of a mounted instance; for an
    unmounted one the call is recorded and the cell is left as it is. *)
Definition setIsAuthenticated (v : option bool) : M unit :=
  fun w =>
    if mounted w then (with_isAuthenticated v w, inr tt)
    else (with_stale_updates (stale_updates w ++ [SetIsAuthenticated v]) w,
          inr tt).

Definition setIsLoading (b : bool) : M unit :=
  fun w =>
    if mounted w then (with_isLoading b w, inr tt)
    else (with_stale_updates (stale_updates w ++ [SetIsLoading b]) w, inr tt).

Definition console_error (msg : string) (error : exn) : M unit :=
  fun w => (with_console_errors (console_errors w ++ [(msg, error)]) w, inr tt).

(** The call [firebase.auth.isAuthenticated()] that opens [checkAuth]. *)
Definition firebase_auth_isAuthenticated : M unit :=
  fun w => (with_probe_in_flight true w, inr tt).

(** [firebase.auth.onAuthStateChanged(handler)]. *)
Definition firebase_auth_onAuthStateChanged : M unit :=
  fun w => (with_subscription true (unsubscribe_calls w) w, inr tt).

(** The function [onAuthStateChanged] returned. *)
Definition unsubscribe : M unit :=
  fun w => (with_subscription false (S (unsubscribe_calls w)) w, inr tt).

(** ** What a guard renders *)

(** The pages and the layout of the route table. *)
Inductive element : Type :=
| Authentication
| Home
| Onboarding
| ManagerDashboard
| SupervisorDashboard
| Layout (child : element).

Inductive output : Type :=
| Spinner (caption : string)
| Navigate (to : string) (replace : bool)
| Children (children : element).

(** A function component with the hooks the guards use. *)
Record component : Type := mkComponent {
  useState_isAuthenticated : option bool;
  useState_isLoading : bool;
  (** synchronous part of the effect callback *)
  effect : M unit;
  (** the function the effect callback returns *)
  cleanup : M unit;
  (** [checkAuth] from its [await] on *)
  checkAuth : settled -> M unit;
  (** the callback passed to [onAuthStateChanged] *)
  onAuthStateChanged_handler : option identity -> M unit;
  (** the component body after the hooks *)
  render : element -> option bool -> bool -> output
}.

(** ** [ProtectedRoute] (lines 12 to 56) *)
Module ProtectedRoute.

Definition checkAuth (r : settled) : M unit :=
  try_catch_finally
    (authenticated <- await r ;;
     setIsAuthenticated (Some authenticated))
    (fun error =>
       console_error "Auth check failed:" error ;;
       setIsAuthenticated (Some false))
    (setIsLoading false).

Definition onAuthStateChanged_handler (user : option identity) : M unit :=
  setIsAuthenticated (Some (not_not user)) ;;
  setIsLoading false.

Definition effect : M unit :=
  firebase_auth_isAuthenticated ;;
  firebase_auth_onAuthStateChanged.

Definition cleanup : M unit := unsubscribe.

Definition render (children : element)
    (isAuthenticated : option bool) (isLoading : bool) : output :=
  if isLoading then Spinner "Checking authentication..."
  else if negb (truthy isAuthenticated) then Navigate "/login" true
  else Children children.

Definition self : component :=
  mkComponent None true effect cleanup checkAuth
              onAuthStateChanged_handler render.

End ProtectedRoute.

(** ** [PublicRoute] (lines 59 to 103) *)
Module PublicRoute.

Definition checkAuth (r : settled) : M unit :=
  try_catch_finally
    (authenticated <- await r ;;
     setIsAuthenticated (Some authenticated))
    (fun error =>
       console_error "Auth check failed:" error ;;
       setIsAuthenticated (Some false))
    (setIsLoading false).

Definition onAuthStateChanged_handler (user : option identity) : M unit :=
  setIsAuthenticated (Some (not_not user)) ;;
  setIsLoading false.

Definition effect : M unit :=
  firebase_auth_isAuthenticated ;;
  firebase_auth_onAuthStateChanged.

Definition cleanup : M unit := unsubscribe.

Definition render (children : element)
    (isAuthenticated : option bool) (isLoading : bool) : output :=
  if isLoading then Spinner "Loading..."
  else if truthy isAuthenticated then Navigate "/" true
  else Children children.

Definition self : component :=
  mkComponent None true effect cleanup checkAuth
              onAuthStateChanged_handler render.

End PublicRoute.

(** The two guards. *)
Inductive guard : Type := RequireAuth | RequireAnon.

Definition component_of (g : guard) : component :=
  match g with
  | RequireAuth => ProtectedRoute.self
  | RequireAnon => PublicRoute.self
  end.

(** ** Life of an instance *)

(** Runs a callback; an exception that escapes it is recorded. *)
Definition exec (m : M unit) (w : world) : world :=
  match m w with
  | (w', inl e) => with_unhandled (unhandled w' ++ [e]) w'
  | (w', inr _) => w'
  end.

(** The instance as first rendered, before its effect has run. *)
Definition fresh (c : component) : world :=
  mkWorld (useState_isAuthenticated c) (useState_isLoading c)
          true false false 0 [] [] [].

(** Activation: first render, then the mount-only effect. *)
Definition activate (g : guard) : world :=
  exec (effect (component_of g)) (fresh (component_of g)).

(** What can happen to an activated instance. *)
Inductive event : Type :=
| ProbeSettles (r : settled)
| AuthStateChanged (user : option identity)
| Unmount.

(** One event.  The probe settles once; the provider calls only a
    registered handler; the cleanup runs when a mounted instance is
    unmounted. *)
Definition step (g : guard) (ev : event) (w : world) : world :=
  match ev with
  | ProbeSettles r =>
      if probe_in_flight w
      then exec (checkAuth (component_of g) r) (with_probe_in_flight false w)
      else w
  | AuthStateChanged user =>
      if subscribed w
      then exec (onAuthStateChanged_handler (component_of g) user) w
      else w
  | Unmount =>
      if mounted w
      then with_mounted false (exec (cleanup (component_of g)) w)
      else w
  end.

Definition run (g : guard) (tr : list event) (w : world) : world :=
  fold_left (fun w' ev => step g ev w') tr w.

(** The component body applied to the hook cells of an instance. *)
Definition render_in (g : guard) (children : element) (w : world) : output :=
  render (component_of g) children (isAuthenticated w) (isLoading w).

(** ** AuthState *)

(** The tri-state reading of the two hook cells: pending while
    [isLoading], afterwards by the truthiness of [isAuthenticated]. *)
Inductive AuthState : Type := Unknown | Authenticated | Unauthenticated.

Definition auth_state (w : world) : AuthState :=
  if isLoading w then Unknown
  else if truthy (isAuthenticated w) then Authenticated
  else Unauthenticated.

Definition is_spinner (o : output) : bool :=
  match o with Spinner _ => true | _ => false end.

Definition is_navigate (o : output) : bool :=
  match o with Navigate _ _ => true | _ => false end.

Definition is_children (o : output) : bool :=
  match o with Children _ => true | _ => false end.

(** Neither the probe settling nor a notification. *)
Definition quiet (ev : event) : bool :=
  match ev with
  | ProbeSettles _ => false
  | AuthStateChanged _ => false
  | Unmount => true
  end.

(** The setter calls [checkAuth] makes from its [await] on: the probe's
    answer, or [false] from the [catch] block, then the [finally] block. *)
Definition probe_updates (r : settled) : list update :=
  [ SetIsAuthenticated
      (Some match r with Fulfilled b => b | Rejected _ => false end);
    SetIsLoading false ].

(** ** [App]: the route table (lines 105 to 167) *)
Module App.

Inductive route_element : Type :=
| PublicRoute_ (children : element)
| ProtectedRoute_ (children : element)
| Navigate_ (to : string) (replace : bool).

Record route : Type := Route { path : string; element_of : route_element }.

Definition routes : list route :=
  [ Route "/login" (PublicRoute_ Authentication);
    Route "/" (ProtectedRoute_ (Layout Home));
    Route "/onboarding" (ProtectedRoute_ Onboarding);
    Route "/manager-dashboard" (ProtectedRoute_ (Layout ManagerDashboard));
    Route "/supervisor-dashboard"
          (ProtectedRoute_ (Layout SupervisorDashboard));
    Route "*" (Navigate_ "/" true) ].

Definition is_splat (p : string) : bool := String.eqb p "*".

(** The letter of a pattern compiled with the flag [i]: ASCII letters
    are compared without their case. *)
Definition lower (c : ascii) : ascii :=
  let n := nat_of_ascii c in
  if Nat.leb 65 n && Nat.leb n 90 then ascii_of_nat (n + 32) else c.

(** [s] without the slashes it ends with. *)
Fixpoint drop_trailing_slashes (s : string) : string :=
  match s with
  | EmptyString => EmptyString
  | String c s' =>
      match drop_trailing_slashes s' with
      | EmptyString =>
          if Ascii.eqb c "/" then EmptyString else String c EmptyString
      | String c' r => String c (String c' r)
      end
  end.

(** [s] without the slashes it begins with. *)
Fixpoint drop_leading_slashes (s : string) : string :=
  match s with
  | EmptyString => EmptyString
  | String c s' =>
      if Ascii.eqb c "/" then drop_leading_slashes s' else s
  end.

(** The text a pattern without parameters is compiled from: the pattern
    without trailing slashes and with one leading slash. *)
Definition pattern_source (p : string) : string :=
  String "/" (drop_leading_slashes (drop_trailing_slashes p)).

(** What is left of [s] after [p], letters compared without their
    case. *)
Fixpoint strip_prefix_ci (p s : string) : option string :=
  match p with
  | EmptyString => Some s
  | String a p' =>
      match s with
      | EmptyString => None
      | String b s' =>
          if Ascii.eqb (lower a) (lower b) then strip_prefix_ci p' s'
          else None
      end
  end.

Fixpoint all_slashes (s : string) : bool :=
  match s with
  | EmptyString => true
  | String c s' => Ascii.eqb c "/" && all_slashes s'
  end.

(** No line feed and no carriage return: what [.] matches. *)
Fixpoint no_line_terminator (s : string) : bool :=
  match s with
  | EmptyString => true
  | String c s' =>
      negb (Nat.eqb (nat_of_ascii c) 10 || Nat.eqb (nat_of_ascii c) 13)
      && no_line_terminator s'
  end.

(** Whether a route path matches a pathname, as the router decides it for
    the paths of this table.  [pathname] is the pathname of the location
    after the router has taken off its basename and decoded it.  The
    routes set no [caseSensitive], so a path without parameters is
    compiled to a pattern with the flag [i], anchored at both ends, that
    allows slashes after the path: it matches the pathname that equals
    the path up to the case of ASCII letters, with any number of slashes
    after it.  The path of the catch-all is compiled to a slash followed
    by any characters to the end: it matches every pathname that begins
    with a slash and has no line terminator after it. *)
Definition matchPath (pattern pathname : string) : bool :=
  if is_splat pattern then
    match pathname with
    | String c rest => Ascii.eqb c "/" && no_line_terminator rest
    | EmptyString => false
    end
  else
    match strip_prefix_ci (pattern_source pattern) pathname with
    | Some rest => all_slashes rest
    | None => false
    end.

(** The route the router selects: routes are ranked before they are
    tried, a path of static segments above [*], so a static path that
    matches wins and [*] serves what is left. *)
Definition matchRoutes (rs : list route) (pathname : string)
  : option route :=
  match find (fun r => negb (is_splat (path r))
                       && matchPath (path r) pathname) rs with
  | Some r => Some r
  | None => find (fun r => is_splat (path r)
                           && matchPath (path r) pathname) rs
  end.

(** What a matched route element renders, given the hook cells its
    guard (if any) holds. *)
Definition render_element (el : route_element)
    (isAuthenticated : option bool) (isLoading : bool) : output :=
  match el with
  | PublicRoute_ children =>
      PublicRoute.render children isAuthenticated isLoading
  | ProtectedRoute_ children =>
      ProtectedRoute.render children isAuthenticated isLoading
  | Navigate_ to replace => Navigate to replace
  end.

Definition static_paths : list string :=
  ["/login"; "/"; "/onboarding"; "/manager-dashboard";
   "/supervisor-dashboard"].

End App.

(** ** Navigation: the router following its own redirects *)
Module Navigation.

(** What the route matched for [pathname] renders once its guard, if it
    has one, holds the provider's answer [authenticated] with the loading
    flag cleared. *)
Definition resolved (pathname : string) (authenticated : bool)
  : option output :=
  match App.matchRoutes App.routes pathname with
  | Some r =>
      Some (App.render_element (App.element_of r) (Some authenticated) false)
  | None => None
  end.

(** A rendered [<Navigate to=... />] enters the router again at [to];
    rendered children end the navigation at the current pathname.  [fuel]
    bounds the number of route renders. *)
Fixpoint follow (fuel : nat) (pathname : string) (authenticated : bool)
  : option (string * element) :=
  match fuel with
  | 0 => None
  | S fuel' =>
      match resolved pathname authenticated with
      | Some (Children content) => Some (pathname, content)
      | Some (Navigate to _) => follow fuel' to authenticated
      | Some (Spinner _) => None
      | None => None
      end
  end.

End Navigation.

(** * The utility module (lines 390 to 714) *)

(** ** [createPageUrl] (lines 400 to 410) *)
Module PageUrl.

(** The object literal [pageRoutes], in source order. *)
Definition pageRoutes : list (string * string) :=
  [ ("Home", "/");
    ("Login", "/login");
    ("Onboarding", "/onboarding");
    ("ManagerDashboard", "/manager-dashboard");
    ("SupervisorDashboard", "/supervisor-dashboard") ].

(** Own property of an object literal. *)
Fixpoint own (o : list (string * string)) (key : string) : option string :=
  match o with
  | [] => None
  | (k, v) :: o' => if String.eqb k key then Some v else own o' key
  end.

(** What [pageRoutes[pageName]] evaluates to: an own string, a member
    inherited from [Object.prototype] (a function or an object, never a
    string), or [undefined]. *)
Inductive property : Type :=
| OwnString (s : string)
| Inherited (name : string)
| Undefined.

(** Property lookup along the prototype chain of an object literal;
    [Object_prototype] tells which names [Object.prototype] defines
    ([constructor], [toString], [hasOwnProperty], ...). *)
Definition get (Object_prototype : string -> bool)
    (o : list (string * string)) (key : string) : property :=
  match own o key with
  | Some v => OwnString v
  | None => if Object_prototype key then Inherited key else Undefined
  end.

(** [v || '/']: the empty string and [undefined] are falsy. *)
Definition or_root (v : property) : property :=
  match v with
  | OwnString "" => OwnString "/"
  | OwnString s => OwnString s
  | Inherited name => Inherited name
  | Undefined => OwnString "/"
  end.

Definition createPageUrl (Object_prototype : string -> bool)
    (pageName : string) : property :=
  or_root (get Object_prototype pageRoutes pageName).

(** The names every [Object.prototype] defines. *)
Definition standard_Object_prototype (name : string) : bool :=
  existsb (String.eqb name)
    [ "constructor"; "hasOwnProperty"; "isPrototypeOf";
      "propertyIsEnumerable"; "toLocaleString"; "toString"; "valueOf";
      "__proto__"; "__defineGetter__"; "__defineSetter__";
      "__lookupGetter__"; "__lookupSetter__" ].

End PageUrl.

(** ** JavaScript strings *)
Module JS.

(** A string is its sequence of UTF-16 code units. *)
Definition str : Type := list N.

(** A literal of the source, all of whose characters are ASCII. *)
Definition lit (s : string) : str :=
  map N_of_ascii (list_ascii_of_string s).

(** A string is falsy exactly when it is empty. *)
Definition truthy (s : str) : bool :=
  match s with
  | [] => false
  | _ :: _ => true
  end.

(** White space and line terminators: what [\s] matches and what
    [trim] removes. *)
Definition is_whitespace (c : N) : bool :=
  ((9 <=? c) && (c <=? 13) || (c =? 32) || (c =? 160) || (c =? 5760)
   || (8192 <=? c) && (c <=? 8202) || (c =? 8232) || (c =? 8233)
   || (c =? 8239) || (c =? 8287) || (c =? 12288) || (c =? 65279))%N.

(** [l.join(sep)] for an array of strings. *)
Fixpoint join (sep : str) (l : list str) : str :=
  match l with
  | [] => []
  | x :: l' =>
      match l' with
      | [] => x
      | _ :: _ => x ++ sep ++ join sep l'
      end
  end.

Fixpoint trimStart (s : str) : str :=
  match s with
  | [] => []
  | c :: s' => if is_whitespace c then trimStart s' else s
  end.

Definition trimEnd (s : str) : str := rev (trimStart (rev s)).

Definition trim (s : str) : str := trimEnd (trimStart s).

(** Clamps an integer index into [0 .. len]. *)
Definition clamp (len : nat) (i : Z) : nat :=
  Nat.min (Z.to_nat i) len.

(** [s.substring(a, b)] for integers [a], [b]: both are clamped into the
    string and swapped when [a > b]. *)
Definition substring (s : str) (a b : Z) : str :=
  let a' := clamp (length s) a in
  let b' := clamp (length s) b in
  let lo := Nat.min a' b' in
  let hi := Nat.max a' b' in
  firstn (hi - lo) (skipn lo s).

End JS.

(** ** [truncate] (lines 510 to 513) *)
Module Truncate.

(** [length] is the optional second argument, an integer; [None] is the
    omitted argument, which takes the default 50. *)
Definition truncate (text : JS.str) (length : option Z) : JS.str :=
  let length := match length with Some n => n | None => 50%Z end in
  if negb (JS.truthy text) || (Z.of_nat (List.length text) <=? length)%Z
  then text
  else JS.substring text 0 length ++ JS.lit "...".

End Truncate.

(** ** [getWeekStart] and [getWeekDates] (lines 572 to 593) *)
Module Dates.

Definition msPerDay : Z := 86400000.

(** The largest time value a [Date] holds: 8.64e15 ms either side of the
    epoch. *)
Definition maxTime : Z := 8640000000000000.

(** A [Date] object: its time value, in milliseconds since the epoch in
    UTC, or an Invalid Date (time value [NaN]). *)
Inductive Date : Type :=
| Invalid
| Valid (t : Z).

Definition TimeClip (t : Z) : Date :=
  if (Z.abs t <=? maxTime)%Z then Valid t else Invalid.

Definition Day (t : Z) : Z := (t / msPerDay)%Z.

Definition TimeWithinDay (t : Z) : Z := (t mod msPerDay)%Z.

(** 0 is Sunday; day 0 was a Thursday. *)
Definition WeekDay (t : Z) : Z := ((Day t + 4) mod 7)%Z.

Section Zone.

(** The offset of local time, in milliseconds: [LocalTZA t true] at the
    UTC time [t], [LocalTZA t false] at the local time [t]. *)
Variable LocalTZA : Z -> bool -> Z.

(** The day of the month of a local time value. *)
Variable DateFromTime : Z -> Z.

Definition LocalTime (t : Z) : Z := (t + LocalTZA t true)%Z.

Definition UTC (t : Z) : Z := (t - LocalTZA t false)%Z.

(** [d.getDay()]; [None] is [NaN]. *)
Definition getDay (d : Date) : option Z :=
  match d with
  | Valid t => Some (WeekDay (LocalTime t))
  | Invalid => None
  end.

(** [d.getDate()]; [None] is [NaN]. *)
Definition getDate (d : Date) : option Z :=
  match d with
  | Valid t => Some (DateFromTime (LocalTime t))
  | Invalid => None
  end.

(** [d.setDate(date)] for an integer or [NaN]: in local time, the day
    [date] counted from the first of the month of [d], which is
    [date - d.getDate()] days from the day of [d], at the time of day of
    [d]; then back to UTC and clipped to the range of time values. *)
Definition setDate (d : Date) (date : option Z) : Date :=
  match d, date with
  | Valid t, Some dt =>
      let lt := LocalTime t in
      let newDay := (Day lt + (dt - DateFromTime lt))%Z in
      let newDate := (newDay * msPerDay + TimeWithinDay lt)%Z in
      TimeClip (UTC newDate)
  | _, _ => Invalid
  end.

Definition getWeekStart (date : Date) : Date :=
  let d := date in
  let day := getDay d in
  let diff :=
    match getDate d, day with
    | Some dd, Some dy =>
        Some (dd - dy + (if (dy =? 0)%Z then -6 else 1))%Z
    | _, _ => None
    end in
  setDate d diff.

(** The loop body for one [i]. *)
Definition week_date (weekStart : Date) (i : Z) : Date :=
  let d := weekStart in
  setDate d (match getDate weekStart with
             | Some g => Some (g + i)%Z
             | None => None
             end).

Definition getWeekDates (date : Date) : list Date :=
  let weekStart := getWeekStart date in
  map (week_date weekStart) [0; 1; 2; 3; 4; 5; 6]%Z.

End Zone.

End Dates.

(** Linear arithmetic over the two constants. *)
Ltac dates_lia := unfold Dates.msPerDay, Dates.maxTime in *; lia.

(** ** [debounce] (lines 458 to 468) *)
Module Debounce.

Section Debounced.

(** The arguments [...args] of one call. *)
Variable Args : Type.

(** One debounced function: the variable [timeout] of its closure, the
    timers of the runtime that are armed, each with the arguments its
    [later] closure captured, the identifier the next [setTimeout]
    returns, and the calls of [func] made so far, oldest first. *)
Record state : Type := mkState {
  timeout : option nat;
  armed : list (nat * Args);
  next_id : nat;
  func_calls : list Args
}.

(** [debounce(func, wait)] has returned; [timeout] is [undefined]. *)
Definition init : state := mkState None [] 0 [].

(** [clearTimeout(id)]: disarms that timer; nothing for [undefined] or
    a timer that is not armed. *)
Definition clearTimeout (id : option nat) (s : state) : state :=
  match id with
  | Some i =>
      mkState (timeout s)
              (filter (fun t => negb (Nat.eqb (fst t) i)) (armed s))
              (next_id s) (func_calls s)
  | None => s
  end.

(** [timeout = setTimeout(later, wait)] with [later] closed over
    [args]. *)
Definition setTimeout_later (args : Args) (s : state) : state :=
  mkState (Some (next_id s)) (armed s ++ [(next_id s, args)])
          (S (next_id s)) (func_calls s).

Definition executedFunction (args : Args) (s : state) : state :=
  setTimeout_later args (clearTimeout (timeout s) s).

Definition later (args : Args) (s : state) : state :=
  let s' := clearTimeout (timeout s) s in
  mkState (timeout s') (armed s') (next_id s') (func_calls s' ++ [args]).

(** The runtime fires an armed timer: the timer is gone, its callback
    runs. *)
Definition fire (id : nat) (s : state) : state :=
  match find (fun t => Nat.eqb (fst t) id) (armed s) with
  | Some (_, args) =>
      later args
            (mkState (timeout s)
                     (filter (fun t => negb (Nat.eqb (fst t) id)) (armed s))
                     (next_id s) (func_calls s))
  | None => s
  end.

Inductive event : Type :=
| Call (args : Args)
| Fire (id : nat).

Definition step (s : state) (ev : event) : state :=
  match ev with
  | Call args => executedFunction args s
  | Fire id => fire id s
  end.

Definition run (tr : list event) : state := fold_left step tr init.

(** The arguments of the calls in a trace, oldest first. *)
Fixpoint calls (tr : list event) : list Args :=
  match tr with
  | [] => []
  | Call args :: tr' => args :: calls tr'
  | Fire _ :: tr' => calls tr'
  end.

(** [l1] is [l2] with some elements left out. *)
Inductive subseq : list Args -> list Args -> Prop :=
| subseq_nil : subseq [] []
| subseq_skip l1 l2 a : subseq l1 l2 -> subseq l1 (a :: l2)
| subseq_take l1 l2 a : subseq l1 l2 -> subseq (a :: l1) (a :: l2).

(** At most one timer is armed; it is the one [timeout] names and it
    carries the arguments of the latest call.  Every call of [func] so far
    passed the arguments of an earlier call, in the order of the calls. *)
Definition inv (tr : list event) (s : state) : Prop :=
  (armed s = [] \/
   exists id args before,
     armed s = [(id, args)] /\
     timeout s = Some id /\
     id < next_id s /\
     calls tr = before ++ [args] /\
     subseq (func_calls s) before) /\
  (forall id, timeout s = Some id -> id < next_id s) /\
  subseq (func_calls s) (calls tr).

End Debounced.

Arguments init {Args}.
Arguments Call {Args} args.
Arguments Fire {Args} id.
Arguments run {Args} tr.
Arguments calls {Args} tr.
Arguments step {Args} s ev.
Arguments subseq {Args} _ _.

End Debounce.

(** ** Regular expressions over code units *)
Module Regex.

Inductive re : Type :=
| Void
| Eps
| Class (p : N -> bool)
| Cat (r1 r2 : re)
| Alt (r1 r2 : re)
| Star (r : re).

(** [r+] *)
Definition Plus (r : re) : re := Cat r (Star r).

(** The strings a pattern matches from its first to its last unit. *)
Inductive Matches : re -> JS.str -> Prop :=
| MEps : Matches Eps []
| MClass p c : p c = true -> Matches (Class p) [c]
| MCat r1 r2 s1 s2 :
    Matches r1 s1 -> Matches r2 s2 -> Matches (Cat r1 r2) (s1 ++ s2)
| MAltL r1 r2 s : Matches r1 s -> Matches (Alt r1 r2) s
| MAltR r1 r2 s : Matches r2 s -> Matches (Alt r1 r2) s
| MStarNil r : Matches (Star r) []
| MStarCons r s1 s2 :
    Matches r s1 -> Matches (Star r) s2 -> Matches (Star r) (s1 ++ s2).

Fixpoint nullable (r : re) : bool :=
  match r with
  | Void => false
  | Eps => true
  | Class _ => false
  | Cat r1 r2 => nullable r1 && nullable r2
  | Alt r1 r2 => nullable r1 || nullable r2
  | Star _ => true
  end.

(** What is left to match after the unit [c]. *)
Fixpoint deriv (c : N) (r : re) : re :=
  match r with
  | Void => Void
  | Eps => Void
  | Class p => if p c then Eps else Void
  | Cat r1 r2 =>
      Alt (Cat (deriv c r1) r2) (if nullable r1 then deriv c r2 else Void)
  | Alt r1 r2 => Alt (deriv c r1) (deriv c r2)
  | Star r1 => Cat (deriv c r1) (Star r1)
  end.

(** [/^r$/.test(s)] *)
Fixpoint test (r : re) (s : JS.str) : bool :=
  match s with
  | [] => nullable r
  | c :: s' => test (deriv c r) s'
  end.

End Regex.

(** ** [isValidEmail] (lines 489 to 492) *)
Module Email.

Definition at_sign : N := 64.
Definition dot : N := 46.

(** The class [[^\s@]]. *)
Definition not_space_at (c : N) : bool :=
  negb (JS.is_whitespace c || (c =? at_sign)%N).

(** [/^[^\s@]+@[^\s@]+\.[^\s@]+$/] *)
Definition emailRegex : Regex.re :=
  Regex.Cat (Regex.Plus (Regex.Class not_space_at))
    (Regex.Cat (Regex.Class (N.eqb at_sign))
       (Regex.Cat (Regex.Plus (Regex.Class not_space_at))
          (Regex.Cat (Regex.Class (N.eqb dot))
             (Regex.Plus (Regex.Class not_space_at))))).

Definition isValidEmail (email : JS.str) : bool :=
  Regex.test emailRegex email.

End Email.

(** ** [cn] (lines 678 to 693) *)
Module ClassNames.

(** One argument of [cn]: a string; an object, given by its
    [Object.entries] in their order with the truthiness of each value; or
    any other value ([null], [undefined], a number, a boolean, a function)
    with its truthiness. *)
Inductive arg : Type :=
| AStr (s : JS.str)
| AObj (entries : list (JS.str * bool))
| AOther (truthy : bool).

(** [Boolean(cls)] *)
Definition Boolean (cls : arg) : bool :=
  match cls with
  | AStr s => JS.truthy s
  | AObj _ => true
  | AOther truthy => truthy
  end.

(** The callback of [map]. *)
Definition class_of (cls : arg) : JS.str :=
  match cls with
  | AStr s => s
  | AObj entries =>
      JS.join (JS.lit " ") (map fst (filter (fun e => snd e) entries))
  | AOther _ => []
  end.

Definition cn (classes : list arg) : JS.str :=
  JS.trim (JS.join (JS.lit " ") (map class_of (filter Boolean classes))).

(** A class name: not empty and free of white space. *)
Definition token (s : JS.str) : Prop :=
  s <> [] /\ Forall (fun c => JS.is_whitespace c = false) s.

End ClassNames.

(** ** [formatTime] (lines 438 to 450) *)
Module FormatTime.

(** The numbers [formatTime] computes with: [NaN] and the integers.
    Integers of magnitude above [2^53] are not represented: [parseInt]
    answers [None] for them, and so does [formatTime]. *)
Inductive number : Type :=
| NaN
| Int (z : Z).

Definition colon : N := 58.

(** [s.split(sep)] for a separator of one code unit. *)
Fixpoint split (sep : N) (s : JS.str) : list JS.str :=
  match s with
  | [] => [[]]
  | c :: s' =>
      if (c =? sep)%N then [] :: split sep s'
      else match split sep s' with
           | p :: ps => (c :: p) :: ps
           | [] => [[c]]
           end
  end.

(** The value of a code unit as a digit of the radix, if it is one. *)
Definition digit_value (radix : Z) (c : N) : option Z :=
  let v :=
    if ((48 <=? c) && (c <=? 57))%N then Some (Z.of_N c - 48)%Z
    else if ((97 <=? c) && (c <=? 122))%N then Some (Z.of_N c - 87)%Z
    else if ((65 <=? c) && (c <=? 90))%N then Some (Z.of_N c - 55)%Z
    else None in
  match v with
  | Some d => if (d <? radix)%Z then Some d else None
  | None => None
  end.

(** The value of the longest prefix of digits; [acc] is [None] until a
    digit has been read. *)
Fixpoint digits_value (radix : Z) (s : JS.str) (acc : option Z)
  : option Z :=
  match s with
  | [] => acc
  | c :: s' =>
      match digit_value radix c with
      | Some d =>
          digits_value radix s'
            (Some (radix * match acc with Some a => a | None => 0 end + d)%Z)
      | None => acc
      end
  end.

(** [parseInt(string)] without a radix: leading white space, a sign, a
    [0x] or [0X] prefix, then the longest prefix of digits. *)
Definition parseInt (string : JS.str) : option number :=
  let trimmed := JS.trimStart string in
  let '(sign, unsigned) :=
    match trimmed with
    | 45%N :: rest => ((-1)%Z, rest)
    | 43%N :: rest => (1%Z, rest)
    | _ => (1%Z, trimmed)
    end in
  let '(radix, digits) :=
    match unsigned with
    | 48%N :: 120%N :: rest => (16%Z, rest)
    | 48%N :: 88%N :: rest => (16%Z, rest)
    | _ => (10%Z, unsigned)
    end in
  match digits_value radix digits None with
  | None => Some NaN
  | Some mathInt =>
      if (mathInt <=? 2 ^ 53)%Z then Some (Int (sign * mathInt)) else None
  end.

(** [x >= 12] *)
Definition ge12 (x : number) : bool :=
  match x with
  | NaN => false
  | Int z => (12 <=? z)%Z
  end.

(** [x % 12]: the remainder takes the sign of [x]. *)
Definition rem12 (x : number) : number :=
  match x with
  | NaN => NaN
  | Int z => Int (Z.rem z 12)
  end.

(** [x || 12]: [NaN] and zero are falsy. *)
Definition or12 (x : number) : number :=
  match x with
  | NaN => Int 12
  | Int 0 => Int 12
  | Int z => Int z
  end.

(** [`${x}`] for a number. *)
Definition Number_toString (x : number) : JS.str :=
  match x with
  | NaN => JS.lit "NaN"
  | Int z => JS.lit (NilZero.string_of_int (Z.to_int z))
  end.

(** [`${minutes}`] for the second element of the split, [undefined] when
    there is none. *)
Definition minutes_toString (minutes : option JS.str) : JS.str :=
  match minutes with
  | Some m => m
  | None => JS.lit "undefined"
  end.

(** For a string argument nothing in the [try] block throws, so the
    [catch] block does not run. *)
Definition formatTime (timeString : JS.str) : option JS.str :=
  if negb (JS.truthy timeString) then Some []
  else
    let parts := split colon timeString in
    let hours := nth 0 parts [] in
    let minutes := nth_error parts 1 in
    match parseInt hours with
    | None => None
    | Some hour =>
        let ampm := if ge12 hour then JS.lit "PM" else JS.lit "AM" in
        let hour12 := or12 (rem12 hour) in
        Some (Number_toString hour12 ++ JS.lit ":"
              ++ minutes_toString minutes ++ JS.lit " " ++ ampm)
    end.

(** The hour [h] below 100 written with two digits. *)
Definition two_digits (h : nat) : JS.str :=
  [N.of_nat (48 + h / 10); N.of_nat (48 + h mod 10)].

(** The hour of the 12-hour clock. *)
Definition clock12 (h : nat) : nat :=
  if Nat.eqb (h mod 12) 0 then 12 else h mod 12.

End FormatTime.

(** ** [generateId] (lines 475 to 482) *)
Module GenerateId.

Definition chars : JS.str :=
  JS.lit "ABCDEFGHIJKLMNOPQRSTUVWXYZabcdefghijklmnopqrstuvwxyz0123456789".

(** [s.charAt(k)]: the empty string when [k] is out of range. *)
Definition charAt (s : JS.str) (k : nat) : JS.str :=
  match nth_error s k with
  | Some c => [c]
  | None => []
  end.

(** The [for] loop with [n] iterations to go, [i] the number of the
    current one; [draw i] is what
    [Math.floor(Math.random() * chars.length)] gives in iteration [i]. *)
Fixpoint loop (draw : nat -> nat) (n i : nat) (result : JS.str) : JS.str :=
  match n with
  | 0 => result
  | S n' => loop draw n' (S i) (result ++ charAt chars (draw i))
  end.

(** [length] is an integer; [None] is the omitted argument, which takes
    the default 8.  The loop runs while [i < length], not at all for a
    negative [length]. *)
Definition generateId (draw : nat -> nat) (length : option Z) : JS.str :=
  let length := match length with Some n => n | None => 8%Z end in
  loop draw (Z.to_nat length) 0 [].

(** An ASCII letter or digit. *)
Definition alphanumeric (c : N) : bool :=
  ((48 <=? c) && (c <=? 57) || (65 <=? c) && (c <=? 90)
   || (97 <=? c) && (c <=? 122))%N.

End GenerateId.

(** ** Invariant of the life of an instance *)

(** What holds of every instance from activation on. *)
Record Inv (w : world) : Prop := mkInv {
  inv_subscribed : subscribed w = mounted w;
  inv_unsubscribe : unsubscribe_calls w = if mounted w then 0 else 1;
  inv_unhandled : unhandled w = [];
  inv_resolved : isLoading w = false -> isAuthenticated w <> None;
  inv_settled : mounted w = true -> probe_in_flight w = false ->
                isLoading w = false;
  inv_stale : mounted w = true -> stale_updates w = []
}.

Ltac open_world w :=
  destruct w as [ia il mo pf su uc ce st uh]; simpl in *.

(** * Properties *)

(** ** Evaluation of traces *)

Lemma run_app (g : guard) (tr1 tr2 : list event) (w : world) :
  run g (tr1 ++ tr2) w = run g tr2 (run g tr1 w).
Proof. unfold run. apply fold_left_app. Qed.

Lemma run_cons (g : guard) (ev : event) (tr : list event) (w : world) :
  run g (ev :: tr) w = run g tr (step g ev w).
Proof. reflexivity. Qed.

Lemma activate_Inv (g : guard) : Inv (activate g).
Proof. destruct g; split; simpl; intros; congruence. Qed.

Lemma step_Inv (g : guard) (ev : event) (w : world) :
  Inv w -> Inv (step g ev w).
Proof.
  intros [H1 H2 H3 H4 H5 H6]. open_world w.
  destruct g, ev as [[b | e] | user | ];
    destruct mo, pf, su; try discriminate;
    split; simpl in *; intros; auto; try congruence.
Qed.

Lemma run_Inv (g : guard) (tr : list event) :
  forall w, Inv w -> Inv (run g tr w).
Proof.
  induction tr as [| ev tr IH]; intros w Hw; [exact Hw |].
  rewrite run_cons. apply IH, step_Inv, Hw.
Qed.

Lemma reachable_Inv (g : guard) (tr : list event) :
  Inv (run g tr (activate g)).
Proof. apply run_Inv, activate_Inv. Qed.

(** Unmounting is final. *)
Lemma step_unmounted (g : guard) (ev : event) (w : world) :
  mounted w = false -> mounted (step g ev w) = false.
Proof.
  open_world w. intros ->.
  destruct g, ev as [[b | e] | user | ]; destruct pf, su; reflexivity.
Qed.

Lemma run_unmounted (g : guard) (tr : list event) :
  forall w, mounted w = false -> mounted (run g tr w) = false.
Proof.
  induction tr as [| ev tr IH]; intros w Hw; [exact Hw |].
  rewrite run_cons. apply IH, step_unmounted, Hw.
Qed.

Lemma run_mounted_before (g : guard) (tr : list event) (w : world) :
  mounted (run g tr w) = true -> mounted w = true.
Proof.
  intros H. destruct (mounted w) eqn:E; [reflexivity |].
  rewrite (run_unmounted g tr w E) in H. discriminate.
Qed.

Lemma step_Unmount_unmounted (g : guard) (w : world) :
  mounted (step g Unmount w) = false.
Proof. open_world w. destruct g, mo; reflexivity. Qed.

(** The loading flag is only ever cleared. *)
Lemma step_loading_cleared (g : guard) (ev : event) (w : world) :
  isLoading w = false -> isLoading (step g ev w) = false.
Proof.
  open_world w. intros ->.
  destruct g, ev as [[b | e] | user | ]; destruct mo, pf, su; reflexivity.
Qed.

Lemma run_loading_cleared (g : guard) (tr : list event) :
  forall w, isLoading w = false -> isLoading (run g tr w) = false.
Proof.
  induction tr as [| ev tr IH]; intros w Hw; [exact Hw |].
  rewrite run_cons. apply IH, step_loading_cleared, Hw.
Qed.

(** Without the probe settling or a notification, the hook cells stay as
    [useState] initialised them. *)
Lemma step_quiet_cells (g : guard) (ev : event) (w : world) :
  quiet ev = true ->
  isAuthenticated (step g ev w) = isAuthenticated w /\
  isLoading (step g ev w) = isLoading w.
Proof.
  open_world w. destruct ev; try discriminate. intros _.
  destruct g, mo; split; reflexivity.
Qed.

Lemma run_quiet_cells (g : guard) (tr : list event) :
  forall w, forallb quiet tr = true ->
  isAuthenticated (run g tr w) = isAuthenticated w /\
  isLoading (run g tr w) = isLoading w.
Proof.
  induction tr as [| ev tr IH]; intros w H; [split; reflexivity |].
  simpl in H. apply andb_true_iff in H as [Hq Htr].
  rewrite run_cons. destruct (IH (step g ev w) Htr) as [-> ->].
  apply step_quiet_cells, Hq.
Qed.

(** An unmounted, unsubscribed instance: only the probe settling still
    reaches the setters, and the cells keep their values. *)
Lemma step_after_unmount (g : guard) (ev : event) (w : world) :
  mounted w = false -> subscribed w = false ->
  let w' := step g ev w in
  mounted w' = false /\ subscribed w' = false /\
  isAuthenticated w' = isAuthenticated w /\
  isLoading w' = isLoading w /\
  unsubscribe_calls w' = unsubscribe_calls w /\
  ((stale_updates w' = stale_updates w /\
    probe_in_flight w' = probe_in_flight w) \/
   exists r, ev = ProbeSettles r /\ probe_in_flight w = true /\
     probe_in_flight w' = false /\
     stale_updates w' = stale_updates w ++ probe_updates r).
Proof.
  open_world w. intros -> ->.
  destruct ev as [r | user | ]; simpl;
    [| repeat split; left; split; reflexivity
     | repeat split; left; split; reflexivity].
  destruct pf; [| repeat split; left; split; reflexivity].
  destruct g, r as [b | e]; simpl; repeat split;
    right; eexists; (repeat split); unfold probe_updates;
    rewrite <- app_assoc; reflexivity.
Qed.

Lemma run_after_unmount (g : guard) (tr : list event) :
  forall w, mounted w = false -> subscribed w = false ->
  let w' := run g tr w in
  isAuthenticated w' = isAuthenticated w /\
  isLoading w' = isLoading w /\
  subscribed w' = false /\
  unsubscribe_calls w' = unsubscribe_calls w /\
  (stale_updates w' = stale_updates w \/
   exists r, In (ProbeSettles r) tr /\ probe_in_flight w = true /\
     stale_updates w' = stale_updates w ++ probe_updates r).
Proof.
  induction tr as [| ev tr IH]; intros w Hm Hs.
  - simpl. repeat split; auto.
  - cbv zeta. rewrite run_cons.
    destruct (step_after_unmount g ev w Hm Hs)
      as (Hm' & Hs' & A & B & C & D).
    destruct (IH (step g ev w) Hm' Hs') as (A' & B' & C' & D' & E').
    rewrite A', B', D', A, B, C. repeat split; auto.
    destruct D as [[F P] | (r & -> & P & P' & F)].
    + destruct E' as [F' | (r & I & P'' & F')].
      * left. congruence.
      * right. exists r. repeat split; [right; exact I | congruence |].
        rewrite F'. congruence.
    + destruct E' as [F' | (r' & I & P'' & F')]; [| congruence].
      right. exists r. repeat split; [left; reflexivity | exact P |].
      congruence.
Qed.

(** ** The render policies *)

(** C1. A [ProtectedRoute] whose loading flag is cleared renders its
    children when the state is Authenticated and a redirect to [/login]
    when it is Unauthenticated. *)
Theorem ProtectedRoute_resolved_render (children : element) (w : world) :
  (auth_state w = Authenticated ->
   render_in RequireAuth children w = Children children) /\
  (auth_state w = Unauthenticated ->
   render_in RequireAuth children w = Navigate "/login" true).
Proof.
  unfold auth_state, render_in. simpl. unfold ProtectedRoute.render.
  destruct (isLoading w), (truthy (isAuthenticated w));
    split; intros H; try discriminate H; reflexivity.
Qed.

(** Both resolved states are reached by a [ProtectedRoute] instance. *)
Example ProtectedRoute_reaches_resolved :
  auth_state (run RequireAuth [ProbeSettles (Fulfilled true)]
                  (activate RequireAuth)) = Authenticated /\
  auth_state (run RequireAuth [ProbeSettles (Fulfilled false)]
                  (activate RequireAuth)) = Unauthenticated.
Proof. split; reflexivity. Qed.

(** C6. A [PublicRoute] whose loading flag is cleared renders its children
    when the state is Unauthenticated and a redirect to [/] when it is
    Authenticated. *)
Theorem PublicRoute_resolved_render (children : element) (w : world) :
  (auth_state w = Unauthenticated ->
   render_in RequireAnon children w = Children children) /\
  (auth_state w = Authenticated ->
   render_in RequireAnon children w = Navigate "/" true).
Proof.
  unfold auth_state, render_in. simpl. unfold PublicRoute.render.
  destruct (isLoading w), (truthy (isAuthenticated w));
    split; intros H; try discriminate H; reflexivity.
Qed.

Example PublicRoute_reaches_resolved :
  auth_state (run RequireAnon [AuthStateChanged None]
                  (activate RequireAnon)) = Unauthenticated /\
  auth_state (run RequireAnon [AuthStateChanged (Some "uid-1")]
                  (activate RequireAnon)) = Authenticated.
Proof. split; reflexivity. Qed.

(** C3. From activation until the probe settles or a notification
    arrives, either guard renders its pending indicator: the state is
    Unknown and the output is neither the children nor a redirect. *)
Theorem pending_until_first_observation
    (g : guard) (tr : list event) (children : element) :
  forallb quiet tr = true ->
  let w := run g tr (activate g) in
  auth_state w = Unknown /\
  is_spinner (render_in g children w) = true /\
  is_children (render_in g children w) = false /\
  is_navigate (render_in g children w) = false.
Proof.
  intros Hq w.
  destruct (run_quiet_cells g tr (activate g) Hq) as [Ha Hl].
  unfold auth_state, render_in. fold w in Ha, Hl. rewrite Ha, Hl.
  destruct g; repeat split; reflexivity.
Qed.

Lemma pending_until_first_observation_witness :
  forallb quiet [Unmount] = true /\
  auth_state (run RequireAnon [Unmount] (activate RequireAnon)) = Unknown /\
  is_spinner (render_in RequireAuth Home (activate RequireAuth)) = true.
Proof.
  split; [reflexivity |]. split.
  - apply (pending_until_first_observation RequireAnon [Unmount] Home).
    reflexivity.
  - apply (pending_until_first_observation RequireAuth [] Home).
    reflexivity.
Defined.

(** ** The probe *)

(** C4. When the probe rejects, whatever the error, no exception leaves
    [checkAuth], the error is passed to [console.error], and the state is
    Unauthenticated with the loading flag cleared; [ProtectedRoute] then
    renders the redirect to [/login]. *)
Theorem probe_rejection_fails_closed
    (g : guard) (tr : list event) (error : exn) :
  let w := run g tr (activate g) in
  mounted w = true ->
  probe_in_flight w = true ->
  let w' := step g (ProbeSettles (Rejected error)) w in
  snd (checkAuth (component_of g) (Rejected error)
                 (with_probe_in_flight false w)) = inr tt /\
  unhandled w' = [] /\
  console_errors w' = console_errors w ++ [("Auth check failed:", error)] /\
  isAuthenticated w' = Some false /\
  isLoading w' = false /\
  auth_state w' = Unauthenticated /\
  forall children,
    render_in RequireAuth children w' = Navigate "/login" true.
Proof.
  intros w Hm Hp w'.
  pose proof (inv_unhandled _ (reachable_Inv g tr)) as Hu. fold w in Hu.
  subst w'. destruct w as [ia il mo pf su uc ce st uh]. simpl in *.
  subst mo pf uh. destruct g; repeat split.
Qed.

Lemma probe_rejection_fails_closed_witness :
  let w' := step RequireAuth (ProbeSettles (Rejected "NetworkError"))
                 (activate RequireAuth) in
  mounted (activate RequireAuth) = true /\
  probe_in_flight (activate RequireAuth) = true /\
  auth_state w' = Unauthenticated /\
  console_errors w' = [("Auth check failed:", "NetworkError")] /\
  render_in RequireAuth (Layout Home) w' = Navigate "/login" true.
Proof.
  pose proof (probe_rejection_fails_closed RequireAuth [] "NetworkError"
                eq_refl eq_refl) as H.
  cbv zeta in H. destruct H as (_ & _ & Hc & _ & _ & Ha & Hr).
  cbv zeta. split; [reflexivity |]. split; [reflexivity |].
  split; [exact Ha | split; [exact Hc | apply Hr]].
Defined.

(** C10. Once the probe has settled, fulfilled or rejected, the loading
    flag of the instance is false and stays false, so the pending
    indicator is not rendered any more. *)
Theorem loading_cleared_once_probe_settled
    (g : guard) (tr1 : list event) (r : settled) (tr2 : list event) :
  let w := run g (tr1 ++ ProbeSettles r :: tr2) (activate g) in
  mounted w = true ->
  isLoading w = false /\
  auth_state w <> Unknown /\
  forall children, is_spinner (render_in g children w) = false.
Proof.
  intros w Hm. subst w. rewrite run_app, run_cons in *.
  set (w1 := run g tr1 (activate g)) in *.
  set (w2 := step g (ProbeSettles r) w1) in *.
  assert (Hm2 : mounted w2 = true) by exact (run_mounted_before _ _ _ Hm).
  assert (Hl2 : isLoading w2 = false).
  { apply (inv_settled w2); [apply step_Inv, reachable_Inv | exact Hm2 |].
    subst w2. destruct w1 as [ia il mo pf su uc ce st uh]. simpl.
    destruct g, r, pf, mo; reflexivity. }
  pose proof (run_loading_cleared g tr2 w2 Hl2) as Hl.
  unfold auth_state, render_in. rewrite Hl.
  repeat split;
    [destruct (truthy _); discriminate
    | intros children; destruct g; simpl;
      [unfold ProtectedRoute.render | unfold PublicRoute.render];
      destruct (truthy _); reflexivity].
Qed.

Lemma loading_cleared_once_probe_settled_witness :
  let w := run RequireAnon
               ([AuthStateChanged None]
                ++ ProbeSettles (Rejected "NetworkError")
                :: [AuthStateChanged (Some "uid-1")])
               (activate RequireAnon) in
  mounted w = true /\ isLoading w = false.
Proof.
  cbv zeta. split; [reflexivity |].
  apply (loading_cleared_once_probe_settled RequireAnon
           [AuthStateChanged None] (Rejected "NetworkError")
           [AuthStateChanged (Some "uid-1")]).
  reflexivity.
Defined.

(** ** The two writers *)

(** C5. Whatever happened before, a notification to a live instance
    overwrites the state: Authenticated exactly when the identity is not
    [null], Unauthenticated otherwise.  The probe settling does the same
    with its own answer, so of the two writers the later one decides. *)
Theorem last_write_wins (g : guard) (tr : list event) :
  let w := run g tr (activate g) in
  mounted w = true ->
  (forall user,
     let w' := step g (AuthStateChanged user) w in
     isAuthenticated w' = Some (not_not user) /\
     isLoading w' = false /\
     (auth_state w' = Authenticated <-> user <> None) /\
     (auth_state w' = Unauthenticated <-> user = None)) /\
  (forall authenticated user,
     auth_state (run g [ProbeSettles (Fulfilled authenticated);
                        AuthStateChanged user] w)
     = if not_not user then Authenticated else Unauthenticated) /\
  (forall authenticated user,
     probe_in_flight w = true ->
     auth_state (run g [AuthStateChanged user;
                        ProbeSettles (Fulfilled authenticated)] w)
     = if authenticated then Authenticated else Unauthenticated).
Proof.
  intros w Hm.
  pose proof (inv_subscribed _ (reachable_Inv g tr)) as Hs. fold w in Hs.
  rewrite Hm in Hs.
  destruct w as [ia il mo pf su uc ce st uh]. simpl in *. subst mo su.
  split; [| split].
  - intros [u |]; destruct g; cbv; repeat split;
      intros; try congruence; discriminate.
  - intros b [u |]; destruct g, pf; reflexivity.
  - intros b u ->. destruct g, b, u; reflexivity.
Qed.

Lemma last_write_wins_witness :
  mounted (run RequireAuth [] (activate RequireAuth)) = true /\
  auth_state (run RequireAuth [ProbeSettles (Fulfilled true);
                               AuthStateChanged None]
                  (activate RequireAuth)) = Unauthenticated.
Proof.
  split; [reflexivity |].
  exact (proj1 (proj2 (last_write_wins RequireAuth [] eq_refl)) true None).
Defined.

(** ** Deactivation *)

(** C8. Once a guard has been deactivated, the function returned by
    [onAuthStateChanged] has been called exactly once and the handler is
    no longer registered, whatever happened before and whatever happens
    afterwards; at any time it has been called once if the instance is
    unmounted and not at all if it is mounted. *)
Theorem unsubscribe_exactly_once
    (g : guard) (tr1 tr2 : list event) :
  let w1 := run g tr1 (activate g) in
  let w := run g (tr1 ++ Unmount :: tr2) (activate g) in
  unsubscribe_calls w = 1 /\
  subscribed w = false /\
  unsubscribe_calls w1 = (if mounted w1 then 0 else 1).
Proof.
  intros w1 w. subst w1 w.
  pose proof (reachable_Inv g (tr1 ++ Unmount :: tr2)) as [Hs Hu _ _ _ _].
  rewrite run_app, run_cons in *.
  rewrite (run_unmounted g tr2 _ (step_Unmount_unmounted g _)) in Hs, Hu.
  split; [exact Hu |]. split; [exact Hs |].
  apply (inv_unsubscribe _ (reachable_Inv g tr1)).
Qed.

(** ** The two guards side by side *)

(** C9. From the same state and for the same observations the two guards
    compute the same hook cells.  Both show the pending indicator under
    the same condition, and once resolved one redirects exactly when the
    other renders its children. *)
Theorem guards_share_state_mechanics :
  activate RequireAuth = activate RequireAnon /\
  (forall tr w, run RequireAuth tr w = run RequireAnon tr w) /\
  (forall children ia il,
     is_spinner (ProtectedRoute.render children ia il)
     = is_spinner (PublicRoute.render children ia il)) /\
  (forall children ia,
     is_navigate (ProtectedRoute.render children ia false)
     = negb (is_navigate (PublicRoute.render children ia false)) /\
     is_children (ProtectedRoute.render children ia false)
     = negb (is_children (PublicRoute.render children ia false)) /\
     is_navigate (ProtectedRoute.render children ia false)
     = is_children (PublicRoute.render children ia false)).
Proof.
  split; [reflexivity |]. split; [| split].
  - induction tr as [| ev tr IH]; intros w; [reflexivity |].
    rewrite !run_cons, IH.
    replace (step RequireAuth ev w) with (step RequireAnon ev w);
      [reflexivity | destruct ev; reflexivity].
  - intros c ia [|]; [reflexivity |].
    unfold ProtectedRoute.render, PublicRoute.render.
    destruct (truthy ia); reflexivity.
  - intros c ia. unfold ProtectedRoute.render, PublicRoute.render.
    destruct (truthy ia); repeat split.
Qed.

(** ** After deactivation *)

(** C2. Once a guard has been deactivated, nothing writes its AuthState
    any more: whatever happens afterwards, the two hook cells and the
    state read from them stay as they were at deactivation.  A
    notification does nothing at all, the handler being unregistered; and
    when the probe was still in flight at deactivation, its settling
    later, fulfilled or rejected, leaves the cells as they were. *)
Theorem state_frozen_after_unmount
    (g : guard) (tr1 tr2 : list event) :
  mounted (run g tr1 (activate g)) = true ->
  let w1 := run g (tr1 ++ [Unmount]) (activate g) in
  let w2 := run g tr2 w1 in
  mounted w2 = false /\
  isAuthenticated w2 = isAuthenticated w1 /\
  isLoading w2 = isLoading w1 /\
  auth_state w2 = auth_state w1 /\
  (forall user, step g (AuthStateChanged user) w2 = w2) /\
  (forall r,
     let w3 := step g (ProbeSettles r) w2 in
     isAuthenticated w3 = isAuthenticated w1 /\
     isLoading w3 = isLoading w1 /\
     auth_state w3 = auth_state w1).
Proof.
  intros Hm w1 w2.
  assert (Hm1 : mounted w1 = false).
  { subst w1. rewrite run_app. apply step_Unmount_unmounted. }
  assert (Hs1 : subscribed w1 = false).
  { rewrite <- Hm1. apply inv_subscribed. subst w1. apply reachable_Inv. }
  destruct (run_after_unmount g tr2 w1 Hm1 Hs1) as (A & B & C & _ & _).
  fold w2 in A, B, C.
  assert (Hm2 : mounted w2 = false) by (apply run_unmounted, Hm1).
  split; [exact Hm2 |]. split; [exact A |]. split; [exact B |].
  split; [unfold auth_state; rewrite A, B; reflexivity |]. split.
  - intros user. destruct w2 as [ia il mo pf su uc ce st uh].
    simpl in C. subst su. reflexivity.
  - intros r w3.
    destruct (step_after_unmount g (ProbeSettles r) w2 Hm2 C)
      as (_ & _ & A3 & B3 & _).
    fold w3 in A3, B3.
    assert (EA : isAuthenticated w3 = isAuthenticated w1) by congruence.
    assert (EB : isLoading w3 = isLoading w1) by congruence.
    split; [exact EA |]. split; [exact EB |].
    unfold auth_state. rewrite EA, EB. reflexivity.
Qed.

Lemma state_frozen_after_unmount_witness :
  let w1 := run RequireAuth ([] ++ [Unmount]) (activate RequireAuth) in
  let w3 := step RequireAuth (ProbeSettles (Fulfilled true))
                 (run RequireAuth [AuthStateChanged (Some "uid-1")] w1) in
  mounted (run RequireAuth [] (activate RequireAuth)) = true /\
  probe_in_flight w1 = true /\
  isAuthenticated w3 = None /\
  isLoading w3 = true /\
  auth_state w3 = Unknown.
Proof.
  cbv zeta. split; [reflexivity |]. split; [reflexivity |].
  destruct (state_frozen_after_unmount RequireAuth []
              [AuthStateChanged (Some "uid-1")] eq_refl)
    as (_ & _ & _ & _ & _ & H).
  destruct (H (Fulfilled true)) as (A & B & C).
  split; [rewrite A | split; [rewrite B | rewrite C]]; reflexivity.
Defined.

(** The guards keep no liveness flag: a probe that settles after the
    unmount still runs the rest of [checkAuth], which calls the setters
    and, on a rejection, [console.error]; the cells are left as they
    were. *)
Example late_probe_rejection :
  let w := run RequireAuth [Unmount; ProbeSettles (Rejected "NetworkError")]
               (activate RequireAuth) in
  isAuthenticated w = None /\
  isLoading w = true /\
  console_errors w = [("Auth check failed:", "NetworkError")] /\
  stale_updates w = [SetIsAuthenticated (Some false); SetIsLoading false].
Proof. cbv zeta. repeat split. Qed.

(** ** The router *)

(** The table tried in its ranked order. *)
Lemma matchRoutes_cases (pathname : string) :
  App.matchRoutes App.routes pathname
  = if App.matchPath "/login" pathname
    then Some (App.Route "/login" (App.PublicRoute_ Authentication))
    else if App.matchPath "/" pathname
    then Some (App.Route "/" (App.ProtectedRoute_ (Layout Home)))
    else if App.matchPath "/onboarding" pathname
    then Some (App.Route "/onboarding" (App.ProtectedRoute_ Onboarding))
    else if App.matchPath "/manager-dashboard" pathname
    then Some (App.Route "/manager-dashboard"
                         (App.ProtectedRoute_ (Layout ManagerDashboard)))
    else if App.matchPath "/supervisor-dashboard" pathname
    then Some (App.Route "/supervisor-dashboard"
                         (App.ProtectedRoute_ (Layout SupervisorDashboard)))
    else if App.matchPath "*" pathname
    then Some (App.Route "*" (App.Navigate_ "/" true))
    else None.
Proof.
  unfold App.matchRoutes, App.routes. cbn [find App.path].
  change (App.is_splat "/login") with false.
  change (App.is_splat "/") with false.
  change (App.is_splat "/onboarding") with false.
  change (App.is_splat "/manager-dashboard") with false.
  change (App.is_splat "/supervisor-dashboard") with false.
  change (App.is_splat "*") with true.
  cbn [negb andb].
  destruct (App.matchPath "/login" pathname); [reflexivity |].
  destruct (App.matchPath "/" pathname); [reflexivity |].
  destruct (App.matchPath "/onboarding" pathname); [reflexivity |].
  destruct (App.matchPath "/manager-dashboard" pathname); [reflexivity |].
  destruct (App.matchPath "/supervisor-dashboard" pathname);
    [reflexivity |].
  reflexivity.
Qed.



(** What the table does with some requests. *)
Example router_samples :
  map (fun pathname =>
         option_map App.path (App.matchRoutes App.routes pathname))
      ["/login"; "/Login"; "/login//"; "/"; "/ONBOARDING/"; "/Settings";
       "/login/reset"; "//login"; "login"]
  = [Some "/login"; Some "/login"; Some "/login"; Some "/";
     Some "/onboarding"; Some "*"; Some "*"; Some "*"; None].
Proof. reflexivity. Qed.

(** * Further properties of the guards and the router *)

Lemma run_snoc (g : guard) (tr : list event) (ev : event) (w : world) :
  run g (tr ++ [ev]) w = step g ev (run g tr w).
Proof. rewrite run_app. reflexivity. Qed.

(** What one event can do to the console. *)
Lemma step_console (g : guard) (ev : event) (w : world) :
  (probe_in_flight (step g ev w) = true -> probe_in_flight w = true) /\
  (console_errors (step g ev w) = console_errors w \/
   exists e, ev = ProbeSettles (Rejected e) /\ probe_in_flight w = true /\
     console_errors (step g ev w)
     = console_errors w ++ [("Auth check failed:", e)]).
Proof.
  open_world w.
  destruct g, ev as [[b | e] | user | ]; destruct mo, pf, su; simpl;
    split; auto; right; exists e; auto.
Qed.

(** X1. Over the whole life of a guard [console.error] is called at most
    once, and only by the [catch] block of [checkAuth]: with its message
    and the rejection reason of the probe.  While the probe has not
    rejected nothing is logged. *)
Theorem console_error_only_for_rejected_probe
    (g : guard) (tr : list event) :
  let w := run g tr (activate g) in
  length (console_errors w) <= 1 /\
  (forall msg e, In (msg, e) (console_errors w) ->
     msg = "Auth check failed:" /\ In (ProbeSettles (Rejected e)) tr) /\
  ((forall e, ~ In (ProbeSettles (Rejected e)) tr) ->
   console_errors w = []).
Proof.
  intros w. subst w.
  assert (H : (probe_in_flight (run g tr (activate g)) = true ->
               console_errors (run g tr (activate g)) = []) /\
              length (console_errors (run g tr (activate g))) <= 1 /\
              forall msg e,
                In (msg, e) (console_errors (run g tr (activate g))) ->
                msg = "Auth check failed:" /\
                In (ProbeSettles (Rejected e)) tr).
  { induction tr as [| ev tr IH] using rev_ind.
    - destruct g; simpl; repeat split; auto; contradiction.
    - rewrite run_snoc. destruct IH as (Hp & Hl & Hin).
      destruct (step_console g ev (run g tr (activate g)))
        as [Hf [E | (e0 & -> & Hpf & E)]]; rewrite E.
      + split; [intros H; apply Hp, Hf, H |]. split; [exact Hl |].
        intros msg e Hi. destruct (Hin msg e Hi) as [-> Ht].
        split; [reflexivity | apply in_or_app; left; exact Ht].
      + rewrite (Hp Hpf). split.
        * intros H. exfalso. clear - H.
          destruct (run g tr (activate g)) as [ia il mo pf su uc ce st uh].
          destruct g, mo, pf; simpl in H; discriminate.
        * split; [simpl; auto |].
          intros msg e [Hi | []]. inversion Hi; subst.
          split; [reflexivity | apply in_or_app; right; left; reflexivity]. }
  destruct H as (_ & Hl & Hin). split; [exact Hl |]. split; [exact Hin |].
  intros Hno. destruct (console_errors (run g tr (activate g)))
    as [| [msg e] l] eqn:E; [reflexivity |].
  exfalso. apply (Hno e). apply (Hin msg e). left. reflexivity.
Qed.

Lemma step_cells (g : guard) (ev : event) (w : world) :
  (isAuthenticated (step g ev w) = isAuthenticated w /\
   isLoading (step g ev w) = isLoading w) \/
  (exists b, isAuthenticated (step g ev w) = Some b) /\
  isLoading (step g ev w) = false.
Proof.
  open_world w.
  destruct g, ev as [[b | e] | user | ]; destruct mo, pf, su; simpl; auto;
    right; split; eauto.
Qed.

(** X2. In every state of an instance the [isAuthenticated] cell is
    [null] exactly while the loading flag is set: a resolved guard always
    tests a boolean, and an unresolved one never holds an answer. *)
Theorem null_exactly_while_loading (g : guard) (tr : list event) :
  let w := run g tr (activate g) in
  (isLoading w = true <-> isAuthenticated w = None) /\
  (auth_state w = Unknown <-> isAuthenticated w = None).
Proof.
  intros w.
  assert (H : isLoading w = true <-> isAuthenticated w = None).
  { subst w. induction tr as [| ev tr IH] using rev_ind.
    - destruct g; simpl; tauto.
    - rewrite run_snoc.
      destruct (step_cells g ev (run g tr (activate g)))
        as [[-> ->] | [[b ->] ->]]; [exact IH |].
      split; discriminate. }
  split; [exact H |].
  unfold auth_state. destruct (isLoading w).
  - tauto.
  - destruct H as [_ H]. split; intros E.
    + destruct (truthy _); discriminate.
    + specialize (H E). discriminate.
Qed.

(** X3. From every pathname the router serves (one beginning with a
    slash, without line terminator) it comes to rest within three route
    renders.  A signed-out visitor always ends on the authentication
    page, at a pathname the [/login] route matches, and is never shown
    anything else.  A signed-in visitor never ends there: a pathname that
    one of the four protected paths matches is rendered where it was
    requested, and every other pathname ends on [/]. *)
Theorem navigation_settles (pathname : string) (authenticated : bool) :
  App.matchPath "*" pathname = true ->
  exists landing content,
    Navigation.follow 3 pathname authenticated = Some (landing, content) /\
    if authenticated
    then content <> Authentication /\
         App.matchPath "/login" landing = false /\
         (App.matchPath "/login" pathname = false ->
          (exists p, In p App.static_paths /\
                     App.matchPath p pathname = true) ->
          landing = pathname) /\
         (App.matchPath "/login" pathname = true \/
          (forall p, In p App.static_paths ->
                     App.matchPath p pathname = false) ->
          landing = "/")
    else content = Authentication /\
         App.matchPath "/login" landing = true.
Proof.
  intros Hs. cbn [Navigation.follow].
  unfold Navigation.resolved at 1. rewrite matchRoutes_cases.
  assert (static_hit : forall p, In p App.static_paths ->
            App.matchPath p pathname = true ->
            App.matchPath "/login" pathname = true \/
            App.matchPath "/" pathname = true \/
            App.matchPath "/onboarding" pathname = true \/
            App.matchPath "/manager-dashboard" pathname = true \/
            App.matchPath "/supervisor-dashboard" pathname = true).
  { intros p Hin Hp. unfold App.static_paths in Hin. simpl in Hin.
    destruct Hin as [<- | [<- | [<- | [<- | [<- | []]]]]]; tauto. }
  assert (static_miss : forall q,
            (forall p, In p App.static_paths ->
                       App.matchPath p pathname = false) ->
            In q App.static_paths -> App.matchPath q pathname = true ->
            False).
  { intros q H Hin Hq. rewrite (H q Hin) in Hq. discriminate. }
  destruct (App.matchPath "/login" pathname) eqn:B1.
  { destruct authenticated; do 2 eexists; (split; [reflexivity |]).
    - split; [discriminate |]. split; [reflexivity |].
      split; [discriminate | reflexivity].
    - split; [reflexivity | exact B1]. }
  destruct (App.matchPath "/" pathname) eqn:B2;
    [| destruct (App.matchPath "/onboarding" pathname) eqn:B3;
       [| destruct (App.matchPath "/manager-dashboard" pathname) eqn:B4;
          [| destruct (App.matchPath "/supervisor-dashboard" pathname)
               eqn:B5]]].
  1-4: destruct authenticated; do 2 eexists; (split; [reflexivity |]);
    [ split; [discriminate |]; split; [exact B1 |];
      split; [reflexivity |];
      intros [H | H]; [discriminate H |];
      exfalso; eapply static_miss; [exact H | | eassumption];
      simpl; tauto
    | split; reflexivity ].
  rewrite Hs.
  destruct authenticated; do 2 eexists; (split; [reflexivity |]).
  - split; [discriminate |]. split; [reflexivity |]. split.
    + intros _ (p & Hin & Hp).
      destruct (static_hit p Hin Hp) as [H | [H | [H | [H | H]]]];
        congruence.
    + reflexivity.
  - split; reflexivity.
Qed.

Lemma navigation_settles_witness :
  App.matchPath "*" "/onboarding/" = true /\
  exists landing content,
    Navigation.follow 3 "/onboarding/" true = Some (landing, content) /\
    content <> Authentication /\
    landing = "/onboarding/".
Proof.
  split; [reflexivity |].
  destruct (navigation_settles "/onboarding/" true eq_refl)
    as (landing & content & E & Hc & _ & Hl & _).
  exists landing, content. split; [exact E |]. split; [exact Hc |].
  apply Hl; [reflexivity |].
  exists "/onboarding". split; [simpl; tauto | reflexivity].
Defined.

(** The same requests as the router settles them. *)
Example navigation_samples :
  map (fun pa => Navigation.follow 3 (fst pa) (snd pa))
      [("/onboarding/", true); ("/Login", true); ("/Login", false);
       ("/Settings", false); ("/Settings", true);
       ("/manager-dashboard", false)]
  = [Some ("/onboarding/", Onboarding); Some ("/", Layout Home);
     Some ("/Login", Authentication); Some ("/login", Authentication);
     Some ("/", Layout Home); Some ("/login", Authentication)].
Proof. reflexivity. Qed.

(** ** [createPageUrl] *)

Lemma own_pageRoutes_static (pageName url : string) :
  PageUrl.own PageUrl.pageRoutes pageName = Some url ->
  In url App.static_paths.
Proof.
  unfold PageUrl.pageRoutes. cbn [PageUrl.own].
  repeat (destruct (String.eqb _ pageName);
          [intros H; inversion H; simpl; tauto |]).
  discriminate.
Qed.

Lemma matchRoutes_static (url : string) :
  In url App.static_paths ->
  exists el, App.matchRoutes App.routes url = Some (App.Route url el) /\
             el <> App.Navigate_ "/" true.
Proof.
  unfold App.static_paths. simpl.
  intros [<- | [<- | [<- | [<- | [<- | []]]]]];
    eexists; (split; [reflexivity | discriminate]).
Qed.

(** X4. Whatever the page name, [createPageUrl] never returns
    [undefined] or an empty string.  When it returns a string, that string
    is a static path of the route table, so the router serves it without
    falling into the catch-all.  A name that is neither a key of
    [pageRoutes] nor a member of [Object.prototype] gives [/]; a member of
    [Object.prototype] that is not a key comes back as that member, not as
    a path. *)
Theorem createPageUrl_is_routed
    (Object_prototype : string -> bool) (pageName : string) :
  let r := PageUrl.createPageUrl Object_prototype pageName in
  r <> PageUrl.Undefined /\ r <> PageUrl.OwnString "" /\
  (forall url, r = PageUrl.OwnString url ->
     In url App.static_paths /\
     exists el, App.matchRoutes App.routes url = Some (App.Route url el) /\
                el <> App.Navigate_ "/" true) /\
  (PageUrl.own PageUrl.pageRoutes pageName = None ->
   r = if Object_prototype pageName
       then PageUrl.Inherited pageName else PageUrl.OwnString "/").
Proof.
  intros r. subst r. unfold PageUrl.createPageUrl, PageUrl.get.
  destruct (PageUrl.own PageUrl.pageRoutes pageName) as [u |] eqn:E.
  - pose proof (own_pageRoutes_static _ _ E) as Hs.
    assert (Hu : PageUrl.or_root (PageUrl.OwnString u) = PageUrl.OwnString u).
    { unfold App.static_paths in Hs. simpl in Hs.
      destruct Hs as [<- | [<- | [<- | [<- | [<- | []]]]]]; reflexivity. }
    rewrite Hu. split; [discriminate |]. split.
    + intros Hc. inversion Hc; subst.
      unfold App.static_paths in Hs. simpl in Hs.
      destruct Hs as [H | [H | [H | [H | [H | []]]]]]; discriminate H.
    + split; [| discriminate].
      intros url H. inversion H; subst.
      split; [exact Hs | apply matchRoutes_static, Hs].
  - destruct (Object_prototype pageName); simpl;
      (split; [discriminate |]); (split; [discriminate |]);
      (split; [| intros _; reflexivity]); intros url H.
    + discriminate H.
    + inversion H; subst.
      split; [simpl; tauto | apply matchRoutes_static; simpl; tauto].
Qed.

(** The five page names go to the routes of their pages. *)
Example createPageUrl_table :
  map (fun name =>
         match PageUrl.createPageUrl PageUrl.standard_Object_prototype name
         with
         | PageUrl.OwnString url =>
             option_map App.element_of
                        (App.matchRoutes App.routes url)
         | _ => None
         end)
      ["Home"; "Login"; "Onboarding"; "ManagerDashboard";
       "SupervisorDashboard"; "Settings"; "toString"]
  = [ Some (App.ProtectedRoute_ (Layout Home));
      Some (App.PublicRoute_ Authentication);
      Some (App.ProtectedRoute_ Onboarding);
      Some (App.ProtectedRoute_ (Layout ManagerDashboard));
      Some (App.ProtectedRoute_ (Layout SupervisorDashboard));
      Some (App.ProtectedRoute_ (Layout Home));
      None ].
Proof. reflexivity. Qed.

(** * The utility module *)

(** ** [truncate] *)

Lemma substring_prefix (s : JS.str) (n : Z) :
  JS.substring s 0 n = firstn (Z.to_nat n) s.
Proof.
  unfold JS.substring, JS.clamp. simpl.
  rewrite Nat.sub_0_r.
  destruct (Nat.le_ge_cases (Z.to_nat n) (length s)) as [H | H].
  - rewrite Nat.min_l by exact H. reflexivity.
  - rewrite Nat.min_r by exact H.
    rewrite !firstn_all2; [reflexivity | exact H | apply Nat.le_refl].
Qed.

Lemma truncate_cases (text : JS.str) (n : Z) :
  ((text = [] \/ (Z.of_nat (length text) <= n)%Z) /\
   Truncate.truncate text (Some n) = text) \/
  (text <> [] /\ (n < Z.of_nat (length text))%Z /\
   Truncate.truncate text (Some n)
   = firstn (Z.to_nat n) text ++ JS.lit "...").
Proof.
  unfold Truncate.truncate.
  destruct text as [| c text]; [left; split; [left |]; reflexivity |].
  destruct (Z.leb_spec (Z.of_nat (length (c :: text))) n) as [H | H].
  - left. split; [right; exact H | reflexivity].
  - right. split; [discriminate |]. split; [exact H |].
    simpl negb. simpl orb. rewrite substring_prefix. reflexivity.
Qed.

(** X5. [truncate] returns the text itself when it is empty or has at
    most [length] code units, and otherwise its first [length] units
    followed by three dots: the result has [length + 3] units then (3 for
    a negative [length]), which is more than the text had when the text
    was less than three units over the limit. *)
Theorem truncate_length (text : JS.str) (n : Z) :
  let r := Truncate.truncate text (Some n) in
  (text = [] \/ (Z.of_nat (length text) <= n)%Z -> r = text) /\
  (text <> [] -> (n < Z.of_nat (length text))%Z ->
   r = firstn (Z.to_nat n) text ++ JS.lit "..." /\
   Z.of_nat (length r) = (Z.max n 0 + 3)%Z /\
   ((Z.of_nat (length text) < n + 3)%Z -> length text < length r)).
Proof.
  intros r. subst r.
  destruct (truncate_cases text n) as [[H E] | (Hn & H & E)]; rewrite E.
  - split; [reflexivity |]. intros Hne Hlt.
    destruct H as [H | H]; [contradiction | lia].
  - split; [intros [H' | H']; [contradiction | lia] |].
    intros _ _. split; [reflexivity |].
    rewrite length_app, length_firstn. simpl length. lia.
Qed.

(** X6. Truncating twice with the same limit is truncating once. *)
Theorem truncate_idempotent (text : JS.str) (n : Z) :
  Truncate.truncate (Truncate.truncate text (Some n)) (Some n)
  = Truncate.truncate text (Some n).
Proof.
  destruct (truncate_cases text n) as [[H E] | (Hn & H & E)]; rewrite E.
  - exact E.
  - set (p := firstn (Z.to_nat n) text).
    assert (Hp : length p = Z.to_nat n).
    { unfold p. rewrite length_firstn. lia. }
    destruct (truncate_cases (p ++ JS.lit "...") n)
      as [[[H' | H'] E'] | (_ & H' & E')].
    + apply app_eq_nil in H' as [_ H']. discriminate H'.
    + rewrite length_app in H'. simpl length in H'. lia.
    + rewrite E'. f_equal.
      rewrite firstn_app, Hp, Nat.sub_diag. simpl.
      rewrite app_nil_r. apply firstn_all2. lia.
Qed.

(** Without a second argument the limit is 50. *)
Example truncate_default (text : JS.str) :
  Truncate.truncate text None = Truncate.truncate text (Some 50%Z).
Proof. reflexivity. Qed.

(** ** [getWeekStart] and [getWeekDates] *)

Section FixedOffset.

Variable LocalTZA : Z -> bool -> Z.
Variable DateFromTime : Z -> Z.

(** The time zone keeps one offset from UTC. *)
Variable offset : Z.
Hypothesis fixed_offset : forall t b, LocalTZA t b = offset.

Lemma setDate_days (t dt : Z) :
  Dates.setDate LocalTZA DateFromTime (Dates.Valid t) (Some dt)
  = Dates.TimeClip
      (t + (dt - DateFromTime (t + offset)) * Dates.msPerDay)%Z.
Proof.
  unfold Dates.setDate, Dates.LocalTime, Dates.UTC, Dates.Day,
    Dates.TimeWithinDay. cbv zeta. rewrite !fixed_offset. f_equal.
  pose proof (Z.div_mod (t + offset) Dates.msPerDay ltac:(discriminate)).
  lia.
Qed.

Lemma getWeekStart_time (t : Z) :
  Dates.getWeekStart LocalTZA DateFromTime (Dates.Valid t)
  = Dates.TimeClip
      (t - ((Dates.Day (t + offset) + 3) mod 7) * Dates.msPerDay)%Z.
Proof.
  unfold Dates.getWeekStart. cbv zeta.
  unfold Dates.getDay, Dates.getDate, Dates.LocalTime.
  rewrite !fixed_offset, setDate_days. f_equal.
  unfold Dates.WeekDay.
  set (q := Dates.Day (t + offset)). clearbody q.
  set (dd := DateFromTime (t + offset)). clearbody dd.
  unfold Dates.msPerDay.
  destruct (Z.eqb_spec ((q + 4) mod 7) 0) as [H | H];
    Z.div_mod_to_equations; lia.
Qed.

Lemma week_date_time (t i : Z) :
  Dates.week_date LocalTZA DateFromTime (Dates.Valid t) i
  = Dates.TimeClip (t + i * Dates.msPerDay)%Z.
Proof.
  unfold Dates.week_date. cbv zeta. unfold Dates.getDate, Dates.LocalTime.
  rewrite !fixed_offset, setDate_days. f_equal. lia.
Qed.

Lemma TimeClip_valid (t : Z) :
  (- Dates.maxTime <= t <= Dates.maxTime)%Z ->
  Dates.TimeClip t = Dates.Valid t.
Proof.
  intros H. unfold Dates.TimeClip.
  destruct (Z.leb_spec (Z.abs t) Dates.maxTime); [reflexivity | lia].
Qed.

Lemma Day_shift (t k : Z) :
  Dates.Day (t + k * Dates.msPerDay) = (Dates.Day t + k)%Z.
Proof. unfold Dates.Day. apply Z.div_add. discriminate. Qed.

Lemma week_start_bounds (t : Z) :
  let back := (((Dates.Day (t + offset) + 3) mod 7) * Dates.msPerDay)%Z in
  (0 <= back <= 6 * Dates.msPerDay)%Z.
Proof.
  cbv zeta.
  pose proof (Z.mod_pos_bound (Dates.Day (t + offset) + 3) 7 ltac:(lia)).
  dates_lia.
Qed.

Lemma getWeekStart_valid (t : Z) :
  (- Dates.maxTime + 6 * Dates.msPerDay <= t <= Dates.maxTime)%Z ->
  exists ws,
    Dates.getWeekStart LocalTZA DateFromTime (Dates.Valid t)
    = Dates.Valid ws /\
    ws = (t - ((Dates.Day (t + offset) + 3) mod 7) * Dates.msPerDay)%Z /\
    (- Dates.maxTime <= ws <= t)%Z /\
    Dates.WeekDay (ws + offset) = 1%Z.
Proof.
  intros Hr. pose proof (week_start_bounds t) as Hb. cbv zeta in Hb.
  eexists. split; [| split; [reflexivity |]].
  - rewrite getWeekStart_time. apply TimeClip_valid. dates_lia.
  - split; [dates_lia |].
    unfold Dates.WeekDay.
    replace (t - (Dates.Day (t + offset) + 3) mod 7 * Dates.msPerDay
             + offset)%Z
      with (t + offset
            + - ((Dates.Day (t + offset) + 3) mod 7) * Dates.msPerDay)%Z
      by lia.
    rewrite Day_shift.
    set (q := Dates.Day (t + offset)). Z.div_mod_to_equations. lia.
Qed.

End FixedOffset.

(** X7. In a time zone that keeps one offset from UTC, for a date six
    days or more above the lower end of the range of dates,
    [getWeekStart] returns a valid date that is a Monday in local time:
    the local day of the date given or one of the six days before it, at
    the same time of day. *)
Theorem getWeekStart_is_monday
    (LocalTZA : Z -> bool -> Z) (DateFromTime : Z -> Z) (offset t : Z) :
  (forall u b, LocalTZA u b = offset) ->
  (- Dates.maxTime + 6 * Dates.msPerDay <= t <= Dates.maxTime)%Z ->
  exists ws k,
    Dates.getWeekStart LocalTZA DateFromTime (Dates.Valid t)
    = Dates.Valid ws /\
    Dates.getDay LocalTZA (Dates.Valid ws) = Some 1%Z /\
    (0 <= k <= 6)%Z /\
    ws = (t - k * Dates.msPerDay)%Z.
Proof.
  intros Hoff Hr.
  destruct (getWeekStart_valid LocalTZA DateFromTime offset Hoff t Hr)
    as (ws & E & Ews & Hb & Hm).
  exists ws, ((Dates.Day (t + offset) + 3) mod 7)%Z.
  split; [exact E |]. split.
  - unfold Dates.getDay, Dates.LocalTime. rewrite Hoff, Hm. reflexivity.
  - split; [| exact Ews].
    pose proof (Z.mod_pos_bound (Dates.Day (t + offset) + 3) 7 ltac:(lia)).
    lia.
Qed.

Lemma getWeekStart_is_monday_witness :
  let utc_plus_1 := fun (_ : Z) (_ : bool) => 3600000%Z in
  let day_of_month := fun _ : Z => 15%Z in
  let sunday_noon := (3 * Dates.msPerDay + 43200000 - 3600000)%Z in
  (- Dates.maxTime + 6 * Dates.msPerDay <= sunday_noon <= Dates.maxTime)%Z /\
  exists ws k,
    Dates.getWeekStart utc_plus_1 day_of_month (Dates.Valid sunday_noon)
    = Dates.Valid ws /\
    Dates.getDay utc_plus_1 (Dates.Valid ws) = Some 1%Z /\
    (0 <= k <= 6)%Z /\
    ws = (sunday_noon - k * Dates.msPerDay)%Z.
Proof.
  cbv zeta.
  assert (Hr : (- Dates.maxTime + 6 * Dates.msPerDay
                <= 3 * Dates.msPerDay + 43200000 - 3600000
                <= Dates.maxTime)%Z)
    by (unfold Dates.maxTime, Dates.msPerDay; lia).
  split; [exact Hr |].
  apply (getWeekStart_is_monday (fun _ _ => 3600000%Z) (fun _ => 15%Z)
           3600000 (3 * Dates.msPerDay + 43200000 - 3600000)%Z);
    [reflexivity | exact Hr].
Defined.

(** X8. In such a time zone, for a date six days or more inside the range
    of dates at both ends, [getWeekDates] returns seven valid dates: the
    week start and the six days after it, one day apart at the same time
    of day, Monday to Sunday in this order in local time; the date given
    is one of them. *)
Theorem getWeekDates_week
    (LocalTZA : Z -> bool -> Z) (DateFromTime : Z -> Z) (offset t : Z) :
  (forall u b, LocalTZA u b = offset) ->
  (- Dates.maxTime + 6 * Dates.msPerDay <= t
   <= Dates.maxTime - 6 * Dates.msPerDay)%Z ->
  exists ws,
    Dates.getWeekStart LocalTZA DateFromTime (Dates.Valid t)
    = Dates.Valid ws /\
    Dates.getWeekDates LocalTZA DateFromTime (Dates.Valid t)
    = map (fun i => Dates.Valid (ws + i * Dates.msPerDay)%Z)
          [0; 1; 2; 3; 4; 5; 6]%Z /\
    map (Dates.getDay LocalTZA)
        (Dates.getWeekDates LocalTZA DateFromTime (Dates.Valid t))
    = map Some [1; 2; 3; 4; 5; 6; 0]%Z /\
    In (Dates.Valid t)
       (Dates.getWeekDates LocalTZA DateFromTime (Dates.Valid t)).
Proof.
  intros Hoff Hr.
  destruct (getWeekStart_valid LocalTZA DateFromTime offset Hoff t)
    as (ws & E & Ews & Hb & Hm); [dates_lia |].
  pose proof (week_start_bounds offset t) as Hk. cbv zeta in Hk.
  exists ws. split; [exact E |].
  assert (Hl : Dates.getWeekDates LocalTZA DateFromTime (Dates.Valid t)
               = map (fun i => Dates.Valid (ws + i * Dates.msPerDay)%Z)
                     [0; 1; 2; 3; 4; 5; 6]%Z).
  { unfold Dates.getWeekDates. cbv zeta. rewrite E.
    apply map_ext_in. intros i Hi.
    rewrite (week_date_time LocalTZA DateFromTime offset Hoff).
    apply TimeClip_valid.
    assert (0 <= i <= 6)%Z by (simpl in Hi; lia).
    dates_lia. }
  split; [exact Hl |]. rewrite Hl. split.
  - rewrite map_map. unfold Dates.getDay, Dates.LocalTime.
    cbn [map]. rewrite !Hoff.
    unfold Dates.WeekDay in *.
    replace (ws + 0 * Dates.msPerDay + offset)%Z with (ws + offset)%Z by lia.
    replace (ws + 1 * Dates.msPerDay + offset)%Z
      with (ws + offset + 1 * Dates.msPerDay)%Z by lia.
    replace (ws + 2 * Dates.msPerDay + offset)%Z
      with (ws + offset + 2 * Dates.msPerDay)%Z by lia.
    replace (ws + 3 * Dates.msPerDay + offset)%Z
      with (ws + offset + 3 * Dates.msPerDay)%Z by lia.
    replace (ws + 4 * Dates.msPerDay + offset)%Z
      with (ws + offset + 4 * Dates.msPerDay)%Z by lia.
    replace (ws + 5 * Dates.msPerDay + offset)%Z
      with (ws + offset + 5 * Dates.msPerDay)%Z by lia.
    replace (ws + 6 * Dates.msPerDay + offset)%Z
      with (ws + offset + 6 * Dates.msPerDay)%Z by lia.
    rewrite !Day_shift.
    set (q := Dates.Day (ws + offset)) in *. clearbody q.
    repeat (apply f_equal2;
            [f_equal; Z.div_mod_to_equations; lia |]).
    reflexivity.
  - apply in_map_iff.
    exists ((Dates.Day (t + offset) + 3) mod 7)%Z. split.
    + f_equal. lia.
    + pose proof (Z.mod_pos_bound (Dates.Day (t + offset) + 3) 7
                    ltac:(lia)).
      assert (H7 : forall i, (0 <= i < 7)%Z ->
                             In i [0; 1; 2; 3; 4; 5; 6]%Z)
        by (intros i Hi; simpl; lia).
      apply H7. lia.
Qed.

Lemma getWeekDates_week_witness :
  let utc := fun (_ : Z) (_ : bool) => 0%Z in
  let day_of_month := fun _ : Z => 1%Z in
  map (Dates.getDay utc)
      (Dates.getWeekDates utc day_of_month (Dates.Valid 0))
  = map Some [1; 2; 3; 4; 5; 6; 0]%Z.
Proof.
  cbv zeta.
  destruct (getWeekDates_week (fun _ _ => 0%Z) (fun _ => 1%Z) 0 0)
    as (ws & _ & _ & H & _).
  - reflexivity.
  - unfold Dates.maxTime, Dates.msPerDay. lia.
  - exact H.
Defined.

(** X9. In such a time zone and within that range, every date of the
    week returned has the same week start as the date given: the week
    does not depend on the day it is asked for. *)
Theorem getWeekDates_same_week
    (LocalTZA : Z -> bool -> Z) (DateFromTime : Z -> Z) (offset t : Z)
    (d : Dates.Date) :
  (forall u b, LocalTZA u b = offset) ->
  (- Dates.maxTime + 6 * Dates.msPerDay <= t
   <= Dates.maxTime - 6 * Dates.msPerDay)%Z ->
  In d (Dates.getWeekDates LocalTZA DateFromTime (Dates.Valid t)) ->
  Dates.getWeekStart LocalTZA DateFromTime d
  = Dates.getWeekStart LocalTZA DateFromTime (Dates.Valid t).
Proof.
  intros Hoff Hr Hin.
  destruct (getWeekStart_valid LocalTZA DateFromTime offset Hoff t)
    as (ws & E & _ & Hb & Hm); [dates_lia |].
  destruct (getWeekDates_week LocalTZA DateFromTime offset t Hoff Hr)
    as (ws2 & E2 & Hl & _ & _).
  assert (Heq : ws2 = ws) by congruence. subst ws2. clear E2.
  rewrite Hl in Hin. apply in_map_iff in Hin.
  destruct Hin as (i & <- & Hi).
  assert (Hi' : (0 <= i <= 6)%Z) by (simpl in Hi; lia).
  rewrite E, (getWeekStart_time LocalTZA DateFromTime offset Hoff).
  replace (ws + i * Dates.msPerDay + offset)%Z
    with (ws + offset + i * Dates.msPerDay)%Z by lia.
  rewrite Day_shift.
  unfold Dates.WeekDay in Hm.
  set (q := Dates.Day (ws + offset)) in *.
  assert (Ei : ((q + i + 3) mod 7 = i)%Z)
    by (clearbody q; Z.div_mod_to_equations; lia).
  rewrite Ei.
  replace (ws + i * Dates.msPerDay - i * Dates.msPerDay)%Z with ws by lia.
  apply TimeClip_valid. dates_lia.
Qed.

Lemma getWeekDates_same_week_witness :
  let utc := fun (_ : Z) (_ : bool) => 0%Z in
  let day_of_month := fun _ : Z => 1%Z in
  let thursday := Dates.Valid 0 in
  let sunday := Dates.Valid (3 * Dates.msPerDay)%Z in
  In sunday (Dates.getWeekDates utc day_of_month thursday) /\
  Dates.getWeekStart utc day_of_month sunday
  = Dates.getWeekStart utc day_of_month thursday.
Proof.
  cbv zeta.
  assert (Hin : In (Dates.Valid (3 * Dates.msPerDay)%Z)
                   (Dates.getWeekDates (fun _ _ => 0%Z) (fun _ => 1%Z)
                                       (Dates.Valid 0)))
    by (simpl; tauto).
  split; [exact Hin |].
  apply (getWeekDates_same_week (fun _ _ => 0%Z) (fun _ => 1%Z) 0 0).
  - reflexivity.
  - unfold Dates.maxTime, Dates.msPerDay. lia.
  - exact Hin.
Defined.

(** ** [debounce] *)

Section DebounceFacts.

Variable Args : Type.

Lemma subseq_refl (l : list Args) : Debounce.subseq l l.
Proof.
  induction l as [| a l IH]; [apply Debounce.subseq_nil |].
  apply Debounce.subseq_take, IH.
Qed.

Lemma subseq_app_r (l1 l2 l3 : list Args) :
  Debounce.subseq l1 l2 -> Debounce.subseq l1 (l2 ++ l3).
Proof.
  intros H. induction H as [| l1 l2 a H IH | l1 l2 a H IH]; simpl.
  - induction l3 as [| b l3 IH3]; [apply Debounce.subseq_nil |].
    apply Debounce.subseq_skip, IH3.
  - apply Debounce.subseq_skip, IH.
  - apply Debounce.subseq_take, IH.
Qed.

Lemma subseq_snoc (l1 l2 : list Args) (a : Args) :
  Debounce.subseq l1 l2 -> Debounce.subseq (l1 ++ [a]) (l2 ++ [a]).
Proof.
  intros H. induction H as [| l1 l2 b H IH | l1 l2 b H IH]; simpl.
  - apply Debounce.subseq_take, Debounce.subseq_nil.
  - apply Debounce.subseq_skip, IH.
  - apply Debounce.subseq_take, IH.
Qed.

Lemma subseq_length (l1 l2 : list Args) :
  Debounce.subseq l1 l2 -> length l1 <= length l2.
Proof. intros H. induction H; simpl; lia. Qed.

Lemma calls_app (tr1 tr2 : list (Debounce.event Args)) :
  Debounce.calls (tr1 ++ tr2) = Debounce.calls tr1 ++ Debounce.calls tr2.
Proof.
  induction tr1 as [| [a | i] tr1 IH]; simpl; [| rewrite IH |]; auto.
Qed.

Lemma run_snoc_debounce (tr : list (Debounce.event Args))
    (ev : Debounce.event Args) :
  Debounce.run (tr ++ [ev]) = Debounce.step (Debounce.run tr) ev.
Proof. unfold Debounce.run. rewrite fold_left_app. reflexivity. Qed.

Lemma debounce_inv_run (tr : list (Debounce.event Args)) :
  Debounce.inv Args tr (Debounce.run tr).
Proof.
  unfold Debounce.inv.
  induction tr as [| ev tr IH] using rev_ind.
  - repeat split; [left; reflexivity | discriminate | apply Debounce.subseq_nil].
  - rewrite run_snoc_debounce, calls_app.
    destruct IH as (Harm & Hid & Hsub).
    destruct (Debounce.run tr) as [to ar nx fc]. simpl in *.
    destruct ev as [a | i]; simpl.
    + (* a call: the armed timer, if any, is replaced *)
      unfold Debounce.executedFunction, Debounce.setTimeout_later,
        Debounce.clearTimeout. simpl.
      assert (Hclr : Debounce.armed Args
                (match to with
                 | Some i =>
                     Debounce.mkState Args to
                       (filter (fun t => negb (Nat.eqb (fst t) i)) ar) nx fc
                 | None => Debounce.mkState Args to ar nx fc
                 end) = []).
      { destruct Harm as [-> | (id & args & before & -> & -> & _)].
        - destruct to; reflexivity.
        - simpl. rewrite Nat.eqb_refl. reflexivity. }
      destruct to as [i |]; simpl in *; rewrite Hclr; simpl;
        (split; [right; exists nx, a, (Debounce.calls tr);
                 repeat split; auto |
                 split; [intros id E; inversion E; lia
                        | apply subseq_app_r; exact Hsub]]).
    + (* a timer fires *)
      unfold Debounce.fire. simpl.
      destruct Harm as [-> | (id & args & before & -> & -> & Hlt & Hc & Hb)].
      * simpl. rewrite app_nil_r.
        repeat split; [left; reflexivity | exact Hid | exact Hsub].
      * simpl. destruct (Nat.eqb_spec id i) as [-> | Hne].
        -- unfold Debounce.later. simpl. try rewrite Nat.eqb_refl. simpl.
           rewrite ?app_nil_r.
           split; [left; reflexivity |]. split; [exact Hid |].
           rewrite Hc. apply subseq_snoc, Hb.
        -- rewrite app_nil_r.
           split; [right; exists id, args, before; repeat split; auto |].
           split; [exact Hid | exact Hsub].
Qed.

End DebounceFacts.

(** X10. However calls of the debounced function and firings of timers
    interleave, at most one timer is armed, and it carries the arguments
    of the latest call; [func] is called at most once per call, always
    with the arguments of a call made before, and in the order of those
    calls. *)
Theorem debounce_calls_func_with_latest_args
    (Args : Type) (tr : list (Debounce.event Args)) :
  let s := Debounce.run tr in
  (Debounce.armed Args s = [] \/
   exists id args before,
     Debounce.armed Args s = [(id, args)] /\
     Debounce.calls tr = before ++ [args]) /\
  Debounce.subseq (Debounce.func_calls Args s) (Debounce.calls tr) /\
  length (Debounce.func_calls Args s) <= length (Debounce.calls tr).
Proof.
  intros s. destruct (debounce_inv_run Args tr) as (Harm & _ & Hsub).
  fold s in Harm, Hsub. split; [| split].
  - destruct Harm as [E | (id & args & before & E & _ & _ & Hc & _)];
      [left; exact E | right; exists id, args, before; auto].
  - exact Hsub.
  - apply subseq_length, Hsub.
Qed.

Lemma debounce_after_calls (Args : Type) (l : list Args) (a : Args) :
  Debounce.run (map Debounce.Call (l ++ [a]))
  = Debounce.mkState Args (Some (length l)) [(length l, a)]
                     (S (length l)) [].
Proof.
  revert a. induction l as [| b l IH] using rev_ind; intros a.
  - reflexivity.
  - rewrite map_app. unfold Debounce.run in *. rewrite fold_left_app.
    rewrite IH. simpl. unfold Debounce.executedFunction. simpl.
    rewrite Nat.eqb_refl. simpl.
    rewrite length_app. simpl. rewrite Nat.add_1_r. reflexivity.
Qed.

Lemma debounce_fires_spent (Args : Type) (fires : list nat)
    (k n : nat) (done : list Args) :
  fold_left Debounce.step (map Debounce.Fire fires)
            (Debounce.mkState Args (Some k) [] n done)
  = Debounce.mkState Args (Some k) [] n done.
Proof. induction fires as [| i fires IH]; [reflexivity | exact IH]. Qed.

Lemma debounce_fires_armed (Args : Type) (fires : list nat)
    (k n : nat) (a : Args) :
  Debounce.func_calls Args
    (fold_left Debounce.step (map Debounce.Fire fires)
               (Debounce.mkState Args (Some k) [(k, a)] n []))
  = if existsb (Nat.eqb k) fires then [a] else [].
Proof.
  induction fires as [| i fires IH]; [reflexivity |].
  simpl. unfold Debounce.fire. simpl.
  rewrite (Nat.eqb_sym k i).
  destruct (Nat.eqb_spec i k) as [-> | Hne]; simpl.
  - unfold Debounce.later. simpl. rewrite debounce_fires_spent. reflexivity.
  - exact IH.
Qed.

(** X11. After a burst of calls, whichever timers fire and however often,
    [func] is called at most once, with the arguments of the last call of
    the burst: once if the timer of that last call fires, not at all
    otherwise.  The earlier calls of the burst never reach [func]. *)
Theorem debounce_burst
    (Args : Type) (earlier : list Args) (last : Args) (fires : list nat) :
  Debounce.func_calls Args
    (Debounce.run (map Debounce.Call (earlier ++ [last])
                   ++ map Debounce.Fire fires))
  = if existsb (Nat.eqb (length earlier)) fires then [last] else [].
Proof.
  unfold Debounce.run. rewrite fold_left_app.
  pose proof (debounce_after_calls Args earlier last) as H.
  unfold Debounce.run in H. rewrite H.
  apply debounce_fires_armed.
Qed.

(** ** Matching by derivatives *)

Lemma cat_inv (r1 r2 : Regex.re) (s : JS.str) :
  Regex.Matches (Regex.Cat r1 r2) s ->
  exists s1 s2, s = s1 ++ s2 /\ Regex.Matches r1 s1 /\ Regex.Matches r2 s2.
Proof. intros H. inversion H; subst. eauto. Qed.

Lemma alt_inv (r1 r2 : Regex.re) (s : JS.str) :
  Regex.Matches (Regex.Alt r1 r2) s ->
  Regex.Matches r1 s \/ Regex.Matches r2 s.
Proof. intros H. inversion H; subst; auto. Qed.

Lemma class_inv (p : N -> bool) (s : JS.str) :
  Regex.Matches (Regex.Class p) s -> exists c, s = [c] /\ p c = true.
Proof. intros H. inversion H; subst. eauto. Qed.

Lemma nullable_spec (r : Regex.re) :
  Regex.nullable r = true <-> Regex.Matches r [].
Proof.
  induction r as [| | p | r1 IH1 r2 IH2 | r1 IH1 r2 IH2 | r IH]; simpl.
  - split; [discriminate | intros H; inversion H].
  - split; [intros _; constructor | reflexivity].
  - split; [discriminate | intros H; inversion H].
  - rewrite andb_true_iff, IH1, IH2. split.
    + intros [H1 H2]. apply (Regex.MCat r1 r2 [] [] H1 H2).
    + intros H. apply cat_inv in H as (s1 & s2 & E & H1 & H2).
      symmetry in E. apply app_eq_nil in E as [-> ->]. split; assumption.
  - rewrite orb_true_iff, IH1, IH2. split.
    + intros [H | H]; [apply Regex.MAltL | apply Regex.MAltR]; exact H.
    + apply alt_inv.
  - split; [intros _; constructor | reflexivity].
Qed.

Lemma star_cons_inv (r : Regex.re) (c : N) (s : JS.str) :
  Regex.Matches (Regex.Star r) (c :: s) ->
  exists s1 s2, s = s1 ++ s2 /\
    Regex.Matches r (c :: s1) /\ Regex.Matches (Regex.Star r) s2.
Proof.
  intros H. remember (Regex.Star r) as r' eqn:Er.
  remember (c :: s) as cs eqn:Es. revert s Es.
  induction H as [| | | | | r0 | r0 s1 s2 H1 _ H2 IH2]; try discriminate.
  intros s Es. inversion Er; subst r0.
  destruct s1 as [| c1 s1]; simpl in Es.
  - apply IH2; [reflexivity | exact Es].
  - inversion Es; subst. exists s1, s2. repeat split; assumption.
Qed.

Lemma deriv_spec (r : Regex.re) (c : N) :
  forall s, Regex.Matches (Regex.deriv c r) s <-> Regex.Matches r (c :: s).
Proof.
  induction r as [| | p | r1 IH1 r2 IH2 | r1 IH1 r2 IH2 | r IH];
    intros s; simpl.
  - split; intros H; inversion H.
  - split; intros H; inversion H.
  - destruct (p c) eqn:E; split; intros H.
    + inversion H; subst. constructor. exact E.
    + apply class_inv in H as (c' & Ec & _). inversion Ec; subst.
      constructor.
    + inversion H.
    + apply class_inv in H as (c' & Ec & Hp). inversion Ec; subst.
      congruence.
  - split; intros H.
    + apply alt_inv in H as [HL | HR].
      * apply cat_inv in HL as (s1 & s2 & -> & H1 & H2).
        apply IH1 in H1.
        apply (Regex.MCat r1 r2 (c :: s1) s2 H1 H2).
      * destruct (Regex.nullable r1) eqn:N1; [| inversion HR].
        apply nullable_spec in N1. apply IH2 in HR.
        apply (Regex.MCat r1 r2 [] (c :: s) N1 HR).
    + apply cat_inv in H as (s1 & s2 & E & H1 & H2).
      destruct s1 as [| c1 s1]; simpl in E.
      * subst s2. apply Regex.MAltR.
        apply nullable_spec in H1. rewrite H1. apply IH2, H2.
      * inversion E; subst. apply Regex.MAltL.
        constructor; [apply IH1, H1 | exact H2].
  - split; intros H;
      (apply alt_inv in H as [H | H];
       [apply Regex.MAltL, IH1 | apply Regex.MAltR, IH2]; exact H).
  - split; intros H.
    + apply cat_inv in H as (s1 & s2 & -> & H1 & H2).
      apply IH in H1.
      apply (Regex.MStarCons r (c :: s1) s2 H1 H2).
    + apply star_cons_inv in H as (s1 & s2 & -> & H1 & H2).
      constructor; [apply IH, H1 | exact H2].
Qed.

Lemma test_spec (s : JS.str) :
  forall r, Regex.test r s = true <-> Regex.Matches r s.
Proof.
  induction s as [| c s IH]; intros r; simpl.
  - apply nullable_spec.
  - rewrite IH. apply deriv_spec.
Qed.

(** [[class]+] matches the non-empty strings of units of the class. *)
Lemma star_class_spec (p : N -> bool) (s : JS.str) :
  Regex.Matches (Regex.Star (Regex.Class p)) s <->
  Forall (fun c => p c = true) s.
Proof.
  split.
  - intros H. remember (Regex.Star (Regex.Class p)) as r eqn:Er.
    induction H as [| | | | | r0 | r0 s1 s2 H1 _ H2 IH2]; try discriminate.
    + constructor.
    + inversion Er; subst r0.
      apply class_inv in H1 as (c & -> & Hc). simpl.
      constructor; [assumption | apply IH2; reflexivity].
  - intros H. induction H as [| c s Hc _ IH]; [constructor |].
    apply (Regex.MStarCons (Regex.Class p) [c] s); [constructor |]; assumption.
Qed.

Lemma plus_class_spec (p : N -> bool) (s : JS.str) :
  Regex.Matches (Regex.Plus (Regex.Class p)) s <->
  s <> [] /\ Forall (fun c => p c = true) s.
Proof.
  unfold Regex.Plus. split.
  - intros H. apply cat_inv in H as (s1 & s2 & -> & H1 & H2).
    apply class_inv in H1 as (c & -> & Hc). simpl. split; [discriminate |].
    constructor; [assumption | apply star_class_spec, H2].
  - intros [Hne H]. destruct H as [| c s Hc H]; [contradiction |].
    apply (Regex.MCat _ _ [c] s); [constructor; exact Hc |].
    apply star_class_spec, H.
Qed.

(** ** [isValidEmail] *)

(** X12. [isValidEmail] accepts exactly the strings of the form
    [local @ domain . rest] in which the three parts are non-empty and
    contain neither white space nor [@]. *)
Theorem isValidEmail_spec (email : JS.str) :
  Email.isValidEmail email = true <->
  exists local domain rest,
    email = local ++ [Email.at_sign] ++ domain ++ [Email.dot] ++ rest /\
    local <> [] /\ domain <> [] /\ rest <> [] /\
    Forall (fun c => Email.not_space_at c = true) (local ++ domain ++ rest).
Proof.
  unfold Email.isValidEmail, Email.emailRegex. rewrite test_spec. split.
  - intros H.
    apply cat_inv in H as (l & s1 & -> & Hl & H).
    apply cat_inv in H as (a & s2 & -> & Ha & H).
    apply cat_inv in H as (d & s3 & -> & Hd & H).
    apply cat_inv in H as (o & t & -> & Ho & Ht).
    apply class_inv in Ha as (ca & -> & Hca).
    apply class_inv in Ho as (co & -> & Hco).
    apply N.eqb_eq in Hca, Hco. subst ca co.
    apply plus_class_spec in Hl as [Hl1 Hl2].
    apply plus_class_spec in Hd as [Hd1 Hd2].
    apply plus_class_spec in Ht as [Ht1 Ht2].
    exists l, d, t. repeat split; auto.
    apply Forall_app; split; [| apply Forall_app; split]; assumption.
  - intros (l & d & t & -> & Hl & Hd & Ht & Hall).
    apply Forall_app in Hall as [Al Hall].
    apply Forall_app in Hall as [Ad At_].
    apply Regex.MCat; [apply plus_class_spec; split; assumption |].
    apply Regex.MCat; [constructor; apply N.eqb_refl |].
    apply Regex.MCat; [apply plus_class_spec; split; assumption |].
    apply Regex.MCat; [constructor; apply N.eqb_refl |].
    apply plus_class_spec; split; assumption.
Qed.

Lemma not_space_at_spec (c : N) :
  Email.not_space_at c = true ->
  JS.is_whitespace c = false /\ c <> Email.at_sign.
Proof.
  unfold Email.not_space_at. intros H.
  apply negb_true_iff, orb_false_iff in H as [Hw Ha].
  split; [exact Hw | apply N.eqb_neq, Ha].
Qed.

Lemma count_at_sign_zero (s : JS.str) :
  Forall (fun c => Email.not_space_at c = true) s ->
  count_occ N.eq_dec s Email.at_sign = 0.
Proof.
  intros H. apply count_occ_not_In. intros Hin.
  rewrite Forall_forall in H. apply H, not_space_at_spec in Hin.
  destruct Hin as [_ Hin]. apply Hin. reflexivity.
Qed.

(** X13. A string [isValidEmail] accepts contains exactly one [@] and no
    white space, and has at least five code units. *)
Theorem isValidEmail_necessary (email : JS.str) :
  Email.isValidEmail email = true ->
  count_occ N.eq_dec email Email.at_sign = 1 /\
  Forall (fun c => JS.is_whitespace c = false) email /\
  5 <= length email.
Proof.
  intros H. apply isValidEmail_spec in H
    as (l & d & t & -> & Hl & Hd & Ht & Hall).
  apply Forall_app in Hall as [Al Hall].
  apply Forall_app in Hall as [Ad At_].
  split; [| split].
  - rewrite !count_occ_app.
    rewrite (count_at_sign_zero l Al), (count_at_sign_zero d Ad),
      (count_at_sign_zero t At_).
    rewrite (count_occ_cons_eq N.eq_dec [] (eq_refl Email.at_sign)).
    rewrite (count_occ_cons_neq N.eq_dec [] (x := Email.dot)
               (y := Email.at_sign)) by discriminate.
    reflexivity.
  - assert (W : forall s, Forall (fun c => Email.not_space_at c = true) s ->
                          Forall (fun c => JS.is_whitespace c = false) s).
    { intros s Hs. eapply Forall_impl; [| exact Hs].
      intros c Hc. apply not_space_at_spec, Hc. }
    repeat (apply Forall_app; split); auto; repeat constructor.
  - rewrite !length_app. simpl.
    destruct l; [contradiction |]. destruct d; [contradiction |].
    destruct t; [contradiction |]. simpl. lia.
Qed.

Lemma isValidEmail_necessary_witness :
  Email.isValidEmail (JS.lit "ann@example.org") = true /\
  count_occ N.eq_dec (JS.lit "ann@example.org") Email.at_sign = 1.
Proof.
  split; [reflexivity |].
  apply (isValidEmail_necessary (JS.lit "ann@example.org")). reflexivity.
Defined.

(** The pattern asks nothing else of the domain: dots may lead it, follow
    one another or end the address; a second [@] or a space may not
    occur. *)
Example isValidEmail_samples :
  map (fun s => Email.isValidEmail (JS.lit s))
      ["a@b.c"; "a@.b.c"; "a@b..c"; "a@b.c."; "a@b"; "a@b."; "@b.c";
       "a@@b.c"; "a b@c.d"; ""]
  = [true; true; true; true; false; false; false; false; false; false].
Proof. reflexivity. Qed.

(** ** [trim] and [join] *)

Lemma trimStart_decomp (s : JS.str) :
  exists p, s = p ++ JS.trimStart s.
Proof.
  induction s as [| c s [p IH]]; [exists []; reflexivity |].
  simpl. destruct (JS.is_whitespace c).
  - exists (c :: p). simpl. f_equal. exact IH.
  - exists []. reflexivity.
Qed.

Lemma trimStart_head (s : JS.str) (c : N) (t : JS.str) :
  JS.trimStart s = c :: t -> JS.is_whitespace c = false.
Proof.
  induction s as [| c' s IH]; simpl; [discriminate |].
  destruct (JS.is_whitespace c') eqn:E; [exact IH |].
  intros H. inversion H; subst. exact E.
Qed.

Lemma trimStart_id (c : N) (t : JS.str) :
  JS.is_whitespace c = false -> JS.trimStart (c :: t) = c :: t.
Proof. intros H. simpl. rewrite H. reflexivity. Qed.

Lemma trimEnd_decomp (s : JS.str) :
  exists q, s = JS.trimEnd s ++ q.
Proof.
  unfold JS.trimEnd. destruct (trimStart_decomp (rev s)) as [p E].
  exists (rev p). rewrite <- rev_app_distr, <- E, rev_involutive.
  reflexivity.
Qed.

Lemma trimEnd_id (q : JS.str) (d : N) :
  JS.is_whitespace d = false -> JS.trimEnd (q ++ [d]) = q ++ [d].
Proof.
  intros H. unfold JS.trimEnd. rewrite rev_app_distr.
  change (rev [d] ++ rev q) with (d :: rev q).
  rewrite trimStart_id by exact H.
  simpl. rewrite rev_involutive. reflexivity.
Qed.

Lemma trim_ends (s : JS.str) (c : N) :
  (hd_error (JS.trim s) = Some c -> JS.is_whitespace c = false) /\
  (hd_error (rev (JS.trim s)) = Some c -> JS.is_whitespace c = false).
Proof.
  unfold JS.trim. split; intros H.
  - destruct (trimEnd_decomp (JS.trimStart s)) as [q E].
    destruct (JS.trimEnd (JS.trimStart s)) as [| c' r]; [discriminate |].
    inversion H; subst c'. simpl in E.
    apply (trimStart_head s c (r ++ q) E).
  - unfold JS.trimEnd in H. rewrite rev_involutive in H.
    destruct (JS.trimStart (rev (JS.trimStart s))) as [| c' r] eqn:E;
      [discriminate |].
    inversion H; subst c'. apply (trimStart_head _ _ _ E).
Qed.

Lemma join_app (sep : JS.str) (l1 l2 : list JS.str) :
  JS.join sep (l1 ++ l2)
  = match l1, l2 with
    | [], _ => JS.join sep l2
    | _, [] => JS.join sep l1
    | _ :: _, _ :: _ => JS.join sep l1 ++ sep ++ JS.join sep l2
    end.
Proof.
  induction l1 as [| x l1 IH]; [reflexivity |].
  destruct l2 as [| y l2]; [rewrite app_nil_r; reflexivity |].
  destruct l1 as [| x' l1].
  - reflexivity.
  - change (JS.join sep ((x :: x' :: l1) ++ y :: l2))
      with (x ++ sep ++ JS.join sep ((x' :: l1) ++ y :: l2)).
    rewrite IH.
    change (JS.join sep (x :: x' :: l1))
      with (x ++ sep ++ JS.join sep (x' :: l1)).
    rewrite <- !app_assoc. reflexivity.
Qed.

Lemma join_flatten (sep : JS.str) (l1 ks l2 : list JS.str) :
  ks <> [] ->
  JS.join sep (l1 ++ JS.join sep ks :: l2) = JS.join sep (l1 ++ ks ++ l2).
Proof.
  intros Hk. destruct ks as [| k ks]; [contradiction |].
  rewrite (join_app sep l1 (JS.join sep (k :: ks) :: l2)).
  rewrite (join_app sep l1 ((k :: ks) ++ l2)).
  change (JS.join sep (k :: ks) :: l2)
    with ([JS.join sep (k :: ks)] ++ l2).
  rewrite (join_app sep [JS.join sep (k :: ks)] l2).
  rewrite (join_app sep (k :: ks) l2).
  destruct l1, l2; simpl app; reflexivity.
Qed.

Lemma join_tokens_ends (sep : JS.str) (names : list JS.str) :
  names <> [] -> Forall ClassNames.token names ->
  (exists c p, JS.join sep names = c :: p /\ JS.is_whitespace c = false) /\
  (exists q d, JS.join sep names = q ++ [d] /\ JS.is_whitespace d = false).
Proof.
  intros Hne Hall. split.
  - destruct names as [| x names]; [contradiction |].
    inversion Hall as [| ? ? [Hx Hw] _]; subst.
    destruct x as [| c x]; [contradiction |].
    inversion Hw; subst.
    destruct names; simpl; eauto.
  - revert Hne. induction Hall as [| x names [Hx Hw] Hall IH]; intros Hne.
    + exfalso. apply Hne. reflexivity.
    + destruct names as [| y names].
      * simpl. destruct (exists_last Hx) as (q & d & ->).
        apply Forall_app in Hw as [_ Hd]. inversion Hd; subst. eauto.
      * destruct IH as (q & d & E & Hd); [discriminate |].
        change (JS.join sep (x :: y :: names))
          with (x ++ sep ++ JS.join sep (y :: names)).
        rewrite E. exists (x ++ sep ++ q), d.
        rewrite <- !app_assoc. auto.
Qed.

Lemma trim_clean (c d : N) (s q p : JS.str) :
  s = c :: p -> s = q ++ [d] ->
  JS.is_whitespace c = false -> JS.is_whitespace d = false ->
  JS.trim s = s.
Proof.
  intros E1 E2 Hc Hd. unfold JS.trim.
  rewrite E1, trimStart_id by exact Hc. rewrite <- E1, E2.
  apply trimEnd_id, Hd.
Qed.

(** ** [cn] *)

(** X14. [cn] never returns a string that begins or ends with white
    space, whatever its arguments. *)
Theorem cn_is_trimmed (classes : list ClassNames.arg) (c : N) :
  (hd_error (ClassNames.cn classes) = Some c ->
   JS.is_whitespace c = false) /\
  (hd_error (rev (ClassNames.cn classes)) = Some c ->
   JS.is_whitespace c = false).
Proof. unfold ClassNames.cn. apply trim_ends. Qed.

Lemma filter_Boolean_tokens (names : list JS.str) :
  Forall (fun k => k <> []) names ->
  map ClassNames.class_of
      (filter ClassNames.Boolean (map ClassNames.AStr names)) = names.
Proof.
  induction 1 as [| k names Hk _ IH]; [reflexivity |].
  destruct k as [| c k]; [contradiction |].
  simpl. f_equal. exact IH.
Qed.

(** X15. Given class names only, each non-empty and free of white space,
    [cn] returns them joined by single spaces. *)
Theorem cn_of_tokens (names : list JS.str) :
  Forall ClassNames.token names ->
  ClassNames.cn (map ClassNames.AStr names) = JS.join (JS.lit " ") names.
Proof.
  intros Hall. unfold ClassNames.cn.
  rewrite filter_Boolean_tokens
    by (eapply Forall_impl; [| exact Hall]; intros k [Hk _]; exact Hk).
  destruct names as [| x names]; [reflexivity |].
  destruct (join_tokens_ends (JS.lit " ") (x :: names))
    as [(c & p & E1 & Hc) (q & d & E2 & Hd)];
    [discriminate | exact Hall |].
  apply (trim_clean c d _ q p E1 E2 Hc Hd).
Qed.

Lemma cn_of_tokens_witness :
  ClassNames.cn (map ClassNames.AStr [JS.lit "btn"; JS.lit "btn-primary"])
  = JS.lit "btn btn-primary".
Proof.
  apply (cn_of_tokens [JS.lit "btn"; JS.lit "btn-primary"]).
  repeat constructor; discriminate.
Defined.

(** X16. An object among the arguments stands for the keys whose values
    are truthy, in their order: when there is at least one such key and
    none of them is the empty string, [cn] gives what it gives for these
    keys passed as strings in the object's place. *)
Theorem cn_object_is_its_truthy_keys
    (before after : list ClassNames.arg) (entries : list (JS.str * bool)) :
  let keys := map fst (filter (fun e => snd e) entries) in
  keys <> [] ->
  Forall (fun k => k <> []) keys ->
  ClassNames.cn (before ++ ClassNames.AObj entries :: after)
  = ClassNames.cn (before ++ map ClassNames.AStr keys ++ after).
Proof.
  intros keys Hne Hk. unfold ClassNames.cn. f_equal.
  rewrite !filter_app, !map_app. simpl filter. simpl map.
  rewrite (filter_Boolean_tokens keys Hk).
  apply join_flatten, Hne.
Qed.

Lemma cn_object_is_its_truthy_keys_witness :
  ClassNames.cn
    ([ClassNames.AStr (JS.lit "btn")]
     ++ ClassNames.AObj [(JS.lit "active", true); (JS.lit "hidden", false);
                         (JS.lit "large", true)]
     :: [ClassNames.AOther false])
  = JS.lit "btn active large".
Proof.
  rewrite (cn_object_is_its_truthy_keys
             [ClassNames.AStr (JS.lit "btn")] [ClassNames.AOther false]
             [(JS.lit "active", true); (JS.lit "hidden", false);
              (JS.lit "large", true)]).
  - reflexivity.
  - discriminate.
  - repeat constructor; discriminate.
Defined.

(** X17. A truthy argument that yields no class name (an object none of
    whose values is truthy, a number, [true], a function) still takes a
    place in the join: between two class names it leaves two spaces. *)
Theorem cn_empty_entry_doubles_space
    (a b : JS.str) (cls : ClassNames.arg) :
  ClassNames.token a -> ClassNames.token b ->
  ClassNames.Boolean cls = true -> ClassNames.class_of cls = [] ->
  ClassNames.cn [ClassNames.AStr a; cls; ClassNames.AStr b]
  = a ++ JS.lit "  " ++ b.
Proof.
  intros [Ha Wa] [Hb Wb] Hc He. unfold ClassNames.cn.
  destruct a as [| ca a]; [contradiction |].
  destruct b as [| cb b]; [contradiction |].
  simpl filter. rewrite Hc. simpl map. rewrite He.
  change (JS.join (JS.lit " ") [ca :: a; []; cb :: b])
    with ((ca :: a) ++ JS.lit "  " ++ (cb :: b)).
  assert (Hca : JS.is_whitespace ca = false) by (inversion Wa; assumption).
  destruct (exists_last Hb) as (q & d & E).
  assert (Hd : JS.is_whitespace d = false).
  { rewrite E in Wb. apply Forall_app in Wb as [_ Wd].
    inversion Wd; assumption. }
  apply (trim_clean ca d _ ((ca :: a) ++ JS.lit "  " ++ q)
                    (a ++ JS.lit "  " ++ cb :: b));
    [reflexivity | | exact Hca | exact Hd].
  rewrite E, <- !app_assoc. reflexivity.
Qed.

Lemma cn_empty_entry_doubles_space_witness :
  ClassNames.cn [ClassNames.AStr (JS.lit "btn");
                 ClassNames.AObj [(JS.lit "active", false)];
                 ClassNames.AStr (JS.lit "large")]
  = JS.lit "btn  large".
Proof.
  apply (cn_empty_entry_doubles_space (JS.lit "btn") (JS.lit "large")
           (ClassNames.AObj [(JS.lit "active", false)])).
  - split; [discriminate | repeat constructor].
  - split; [discriminate | repeat constructor].
  - reflexivity.
  - reflexivity.
Defined.

(** ** [formatTime] *)

Lemma split_no_sep (sep : N) (a : JS.str) :
  ~ In sep a -> FormatTime.split sep a = [a].
Proof.
  induction a as [| c a IH]; intros H; [reflexivity |].
  simpl. destruct (N.eqb_spec c sep) as [-> | Hne].
  - exfalso. apply H. left. reflexivity.
  - rewrite IH; [reflexivity |]. intros Hin. apply H. right. exact Hin.
Qed.

Lemma split_at_sep (sep : N) (a b : JS.str) :
  ~ In sep a ->
  FormatTime.split sep (a ++ sep :: b) = a :: FormatTime.split sep b.
Proof.
  induction a as [| c a IH]; intros H.
  - simpl. rewrite N.eqb_refl. reflexivity.
  - simpl. destruct (N.eqb_spec c sep) as [-> | Hne].
    + exfalso. apply H. left. reflexivity.
    + rewrite IH; [reflexivity |]. intros Hin. apply H. right. exact Hin.
Qed.

Lemma split_two_parts (a mm tail : JS.str) :
  ~ In FormatTime.colon a -> ~ In FormatTime.colon mm ->
  tail = [] \/ hd_error tail = Some FormatTime.colon ->
  exists rest,
    FormatTime.split FormatTime.colon (a ++ [FormatTime.colon] ++ mm ++ tail)
    = a :: mm :: rest.
Proof.
  intros Ha Hm Ht. simpl app. rewrite (split_at_sep _ a _ Ha).
  destruct Ht as [-> | Ht].
  - rewrite app_nil_r, (split_no_sep _ mm Hm). exists []. reflexivity.
  - destruct tail as [| c tail]; [discriminate |].
    inversion Ht; subst c.
    rewrite (split_at_sep _ mm tail Hm). eauto.
Qed.

Lemma two_digits_no_colon (h : nat) :
  h < 24 -> ~ In FormatTime.colon (FormatTime.two_digits h).
Proof.
  intros Hh.
  do 24 (destruct h as [| h]; [intros [H | [H | []]]; discriminate H |]).
  lia.
Qed.

(** X18. For a time in the HH:mm format with the hour from 00 to 23,
    [formatTime] gives the hour of the 12-hour clock, 12 for midnight and
    for noon, without a leading zero, then the minutes as they were
    written, then AM before noon and PM from noon on; seconds or anything
    else after a second colon are dropped. *)
Theorem formatTime_12_hour_clock (h : nat) (mm tail : JS.str) :
  h < 24 ->
  ~ In FormatTime.colon mm ->
  tail = [] \/ hd_error tail = Some FormatTime.colon ->
  FormatTime.formatTime
    (FormatTime.two_digits h ++ [FormatTime.colon] ++ mm ++ tail)
  = Some (JS.lit (NilEmpty.string_of_uint
                    (Nat.to_uint (FormatTime.clock12 h)))
          ++ JS.lit ":" ++ mm ++ JS.lit " "
          ++ (if (h <? 12)%nat then JS.lit "AM" else JS.lit "PM")).
Proof.
  intros Hh Hm Ht.
  destruct (split_two_parts (FormatTime.two_digits h) mm tail
              (two_digits_no_colon h Hh) Hm Ht) as [rest E].
  unfold FormatTime.formatTime. rewrite E.
  cbn [nth nth_error FormatTime.minutes_toString].
  do 24 (destruct h as [| h]; [reflexivity |]).
  lia.
Qed.

Lemma formatTime_12_hour_clock_witness :
  FormatTime.formatTime (JS.lit "13:45:10") = Some (JS.lit "1:45 PM") /\
  FormatTime.formatTime (JS.lit "00:05") = Some (JS.lit "12:05 AM").
Proof.
  split.
  - apply (formatTime_12_hour_clock 13 (JS.lit "45") (JS.lit ":10"));
      [lia | intros [H | [H | []]]; discriminate H | right; reflexivity].
  - apply (formatTime_12_hour_clock 0 (JS.lit "05") []);
      [lia | intros [H | [H | []]]; discriminate H | left; reflexivity].
Defined.

(** The whole day. *)
Example formatTime_hours :
  map (fun h => FormatTime.formatTime
                  (FormatTime.two_digits h ++ JS.lit ":00"))
      (seq 0 24)
  = map (fun s => Some (JS.lit s))
      ["12:00 AM"; "1:00 AM"; "2:00 AM"; "3:00 AM"; "4:00 AM"; "5:00 AM";
       "6:00 AM"; "7:00 AM"; "8:00 AM"; "9:00 AM"; "10:00 AM"; "11:00 AM";
       "12:00 PM"; "1:00 PM"; "2:00 PM"; "3:00 PM"; "4:00 PM"; "5:00 PM";
       "6:00 PM"; "7:00 PM"; "8:00 PM"; "9:00 PM"; "10:00 PM"; "11:00 PM"].
Proof. reflexivity. Qed.

(** X19. [formatTime] validates nothing.  When the text before the first
    colon does not begin with a number, the hour shown is 12 AM; when the
    string has no colon at all, the minutes shown are the word
    [undefined]. *)
Theorem formatTime_not_a_time (hours mm : JS.str) :
  ~ In FormatTime.colon hours ->
  ~ In FormatTime.colon mm ->
  FormatTime.parseInt hours = Some FormatTime.NaN ->
  FormatTime.formatTime (hours ++ [FormatTime.colon] ++ mm)
  = Some (JS.lit "12:" ++ mm ++ JS.lit " AM") /\
  (hours <> [] ->
   FormatTime.formatTime hours = Some (JS.lit "12:undefined AM")).
Proof.
  intros Hh Hm Hp. split.
  - destruct (split_two_parts hours mm [] Hh Hm (or_introl eq_refl))
      as [rest E].
    rewrite app_nil_r in E.
    unfold FormatTime.formatTime. rewrite E.
    cbn [nth nth_error FormatTime.minutes_toString]. rewrite Hp.
    destruct hours; reflexivity.
  - intros Hne. unfold FormatTime.formatTime.
    rewrite (split_no_sep _ hours Hh).
    cbn [nth nth_error FormatTime.minutes_toString]. rewrite Hp.
    destruct hours; [contradiction | reflexivity].
Qed.

Lemma formatTime_not_a_time_witness :
  FormatTime.formatTime (JS.lit "noon" ++ [FormatTime.colon] ++ JS.lit "15")
  = Some (JS.lit "12:15 AM") /\
  FormatTime.formatTime (JS.lit "noon") = Some (JS.lit "12:undefined AM").
Proof.
  destruct (formatTime_not_a_time (JS.lit "noon") (JS.lit "15")) as [A B].
  - intros [H | [H | [H | [H | []]]]]; discriminate H.
  - intros [H | [H | []]]; discriminate H.
  - reflexivity.
  - split; [exact A | apply B; discriminate].
Defined.

(** ** [generateId] *)

Lemma chars_alphanumeric :
  Forall (fun c => GenerateId.alphanumeric c = true) GenerateId.chars.
Proof. repeat constructor. Qed.

Lemma charAt_chars (k : nat) :
  k < 62 ->
  exists c, GenerateId.charAt GenerateId.chars k = [c] /\
            nth_error GenerateId.chars k = Some c /\
            GenerateId.alphanumeric c = true.
Proof.
  intros Hk. unfold GenerateId.charAt.
  destruct (nth_error GenerateId.chars k) as [c |] eqn:E.
  - exists c. repeat split.
    pose proof chars_alphanumeric as H. rewrite Forall_forall in H.
    apply H. apply (nth_error_In _ _ E).
  - apply nth_error_None in E. change (length GenerateId.chars) with 62 in E.
    lia.
Qed.

Lemma loop_spec (draw : nat -> nat) (n : nat) :
  (forall i, draw i < 62) ->
  forall i result,
    GenerateId.loop draw n i result
    = result ++ map (fun j => nth (draw j) GenerateId.chars 0%N) (seq i n).
Proof.
  intros Hd. induction n as [| n IH]; intros i result;
    cbn [GenerateId.loop seq map].
  - rewrite app_nil_r. reflexivity.
  - rewrite IH. destruct (charAt_chars (draw i) (Hd i)) as (c & -> & E & _).
    rewrite (nth_error_nth _ _ 0%N E), <- app_assoc. reflexivity.
Qed.

(** X20. As [Math.random()] stays below 1, [generateId] returns exactly
    [length] code units (none for a negative [length]), each a letter or
    a digit: the one of [chars] at the index drawn in its iteration. *)
Theorem generateId_spec (draw : nat -> nat) (n : Z) :
  (forall i, draw i < 62) ->
  let id := GenerateId.generateId draw (Some n) in
  id = map (fun j => nth (draw j) GenerateId.chars 0%N)
           (seq 0 (Z.to_nat n)) /\
  length id = Z.to_nat n /\
  Forall (fun c => GenerateId.alphanumeric c = true) id.
Proof.
  intros Hd id.
  assert (E : id = map (fun j => nth (draw j) GenerateId.chars 0%N)
                       (seq 0 (Z.to_nat n))).
  { unfold id, GenerateId.generateId. rewrite (loop_spec draw _ Hd).
    reflexivity. }
  split; [exact E |]. rewrite E. split.
  - rewrite length_map, length_seq. reflexivity.
  - apply Forall_forall. intros c Hin. apply in_map_iff in Hin.
    destruct Hin as (j & <- & _).
    destruct (charAt_chars (draw j) (Hd j)) as (c & _ & Ec & Hc).
    rewrite (nth_error_nth _ _ 0%N Ec). exact Hc.
Qed.

Lemma generateId_spec_witness :
  let draw := fun i => (7 * i + 3) mod 62 in
  (forall i, draw i < 62) /\
  GenerateId.generateId draw (Some 5%Z) = JS.lit "DKRYf".
Proof.
  cbv zeta.
  assert (Hd : forall i, (7 * i + 3) mod 62 < 62)
    by (intros i; apply Nat.mod_upper_bound; discriminate).
  split; [exact Hd |].
  apply (generateId_spec (fun i => (7 * i + 3) mod 62) 5 Hd).
Defined.
